(** * datagen: schema extraction, classification and literal formatting

    A shallow embedding of [generate_data.py].  Python [str] values are
    lists of characters; the text is taken to be ASCII, so that
    [str.upper], [str.lower], [str.strip], [str.split] and the [re]
    classes have their ASCII meaning (a character above 127 is carried
    along unchanged: it is neither a letter nor white space).  Python
    integers are unbounded and are [Z]. *)

From Stdlib Require Import Ascii String DecimalString ZArith Lia Bool Arith List.
Import ListNotations.

Local Open Scope list_scope.
Local Open Scope bool_scope.

Definition str := list ascii.

(** A string literal of the source. *)
Definition L (s : string) : str := list_ascii_of_string s.

(** ** The [str] methods the program calls *)

Module PyStr.

(** [str.isspace] on one ASCII character: TAB, LF, VT, FF, CR, the four
    separators FS, GS, RS, US, and the space. *)
Definition isspace (c : ascii) : bool :=
  let n := N_of_ascii c in
  ((9 <=? n) && (n <=? 13) || (28 <=? n) && (n <=? 32))%N.

Definition upper_char (c : ascii) : ascii :=
  let n := N_of_ascii c in
  if ((97 <=? n) && (n <=? 122))%N then ascii_of_N (n - 32) else c.

Definition lower_char (c : ascii) : ascii :=
  let n := N_of_ascii c in
  if ((65 <=? n) && (n <=? 90))%N then ascii_of_N (n + 32) else c.

Definition upper (s : str) : str := map upper_char s.
Definition lower (s : str) : str := map lower_char s.

Fixpoint eqb (a b : str) : bool :=
  match a, b with
  | [], [] => true
  | x :: a', y :: b' => Ascii.eqb x y && eqb a' b'
  | _, _ => false
  end.

Definition mem (c : ascii) (cs : str) : bool := existsb (Ascii.eqb c) cs.

Fixpoint drop_while (p : ascii -> bool) (s : str) : str :=
  match s with
  | [] => []
  | c :: s' => if p c then drop_while p s' else s
  end.

Definition lstrip_by (p : ascii -> bool) (s : str) : str := drop_while p s.
Definition rstrip_by (p : ascii -> bool) (s : str) : str :=
  rev (drop_while p (rev s)).
Definition strip_by (p : ascii -> bool) (s : str) : str :=
  rstrip_by p (lstrip_by p s).

(** [s.strip()] *)
Definition strip (s : str) : str := strip_by isspace s.
Definition rstrip (s : str) : str := rstrip_by isspace s.

(** [s.strip(chars)] *)
Definition strip_chars (chars s : str) : str :=
  strip_by (fun c => mem c chars) s.

(** [s.startswith(p)] *)
Fixpoint startswith (p s : str) : bool :=
  match p, s with
  | [], _ => true
  | x :: p', y :: s' => Ascii.eqb x y && startswith p' s'
  | _ :: _, [] => false
  end.

(** [s.startswith((p1, ..., pn))] *)
Definition startswith_any (ps : list str) (s : str) : bool :=
  existsb (fun p => startswith p s) ps.

(** [sub in s] *)
Fixpoint contains (sub s : str) : bool :=
  startswith sub s ||
  match s with
  | [] => false
  | _ :: s' => contains sub s'
  end.

(** [s.split()]: the maximal runs of characters that are not white
    space, in order; [cur] is the run being read. *)
Fixpoint split_from (cur s : str) : list str :=
  match s with
  | [] => match cur with [] => [] | _ => [cur] end
  | c :: s' =>
      if isspace c
      then match cur with
           | [] => split_from [] s'
           | _ => cur :: split_from [] s'
           end
      else split_from (cur ++ [c]) s'
  end.

Definition split (s : str) : list str := split_from [] s.

(** [s.replace(old, new)] for a one-character [old]. *)
Fixpoint replace1 (old : ascii) (new s : str) : str :=
  match s with
  | [] => []
  | c :: s' =>
      (if Ascii.eqb c old then new else [c]) ++ replace1 old new s'
  end.

Definition is_empty (s : str) : bool :=
  match s with [] => true | _ => false end.

End PyStr.

(** ** The comma-aware split of [parse_schema] (lines 130-146) *)

Module Tokenizer.

Record state := mk_state {
  col_definitions : list str;
  current_col : str;
  paren_depth : Z
}.

(** The body of [for char in col_content]. *)
Definition step (st : state) (char : ascii) : state :=
  if Ascii.eqb char "("
  then mk_state (col_definitions st) (current_col st ++ [char])
                (paren_depth st + 1)
  else if Ascii.eqb char ")"
  then mk_state (col_definitions st) (current_col st ++ [char])
                (paren_depth st - 1)
  else if Ascii.eqb char "," && (paren_depth st =? 0)%Z
  then mk_state (col_definitions st ++ [PyStr.strip (current_col st)]) []
                (paren_depth st)
  else mk_state (col_definitions st) (current_col st ++ [char])
                (paren_depth st).

(** [if current_col: col_definitions.append(...)] *)
Definition finish (st : state) : list str :=
  match current_col st with
  | [] => col_definitions st
  | _ => col_definitions st ++ [PyStr.strip (current_col st)]
  end.

Definition init : state := mk_state [] [] 0.

Definition split_columns (col_content : str) : list str :=
  finish (fold_left step col_content init).

End Tokenizer.

(** ** The fragment of [re] the program uses

    Patterns are compiled with [re.IGNORECASE]; a repetition is always
    over a single character class ([\s+], [\s*], [.*?], [[...]+]), and
    each pattern has one capturing group.  The matcher is the
    backtracking one of [re]: alternatives left to right, greedy
    repetitions longest first, lazy ones shortest first. *)

Module Re.

Inductive regex : Type :=
| Eps
| Chr (c : ascii)
| Cls (p : ascii -> bool)
| Cat (r1 r2 : regex)
| Alt (r1 r2 : regex)
| Opt (r : regex)
| Star (p : ascii -> bool)
| Plus (p : ascii -> bool)
| StarLazy (p : ascii -> bool)
| Grp (r : regex).

Fixpoint seq (rs : list regex) : regex :=
  match rs with
  | [] => Eps
  | r :: rs' => Cat r (seq rs')
  end.

(** A literal word; also what [re.escape(word)] denotes. *)
Definition lits (w : str) : regex := seq (map Chr w).
Definition escape (w : str) : regex := lits w.

(** A literal character under [re.IGNORECASE]. *)
Definition chr_eq (c x : ascii) : bool :=
  Ascii.eqb (PyStr.lower_char c) (PyStr.lower_char x).

Section Matcher.
Context {A : Type}.

Fixpoint star_greedy (p : ascii -> bool) (s : str)
         (k : str -> option A) : option A :=
  match s with
  | x :: s' =>
      if p x
      then match star_greedy p s' k with
           | Some a => Some a
           | None => k s
           end
      else k s
  | [] => k s
  end.

Fixpoint star_lazy (p : ascii -> bool) (s : str)
         (k : str -> option A) : option A :=
  match k s with
  | Some a => Some a
  | None =>
      match s with
      | x :: s' => if p x then star_lazy p s' k else None
      | [] => None
      end
  end.

(** [m r g s k]: match [r] at the head of [s], group 1 being [g] so
    far, and go on with [k]. *)
Fixpoint m (r : regex) (g : option str) (s : str)
         (k : option str -> str -> option A) : option A :=
  match r with
  | Eps => k g s
  | Chr c =>
      match s with
      | x :: s' => if chr_eq c x then k g s' else None
      | [] => None
      end
  | Cls p =>
      match s with
      | x :: s' => if p x then k g s' else None
      | [] => None
      end
  | Cat r1 r2 => m r1 g s (fun g' s' => m r2 g' s' k)
  | Alt r1 r2 =>
      match m r1 g s k with
      | Some a => Some a
      | None => m r2 g s k
      end
  | Opt r1 =>
      match m r1 g s k with
      | Some a => Some a
      | None => k g s
      end
  | Star p => star_greedy p s (k g)
  | Plus p =>
      match s with
      | x :: s' => if p x then star_greedy p s' (k g) else None
      | [] => None
      end
  | StarLazy p => star_lazy p s (k g)
  | Grp r1 =>
      m r1 g s
        (fun _ s' =>
           k (Some (firstn (List.length s - List.length s') s)) s')
  end.
End Matcher.

(** A match object, as far as the program looks at it: [group(1)]. *)
Definition match_obj := option str.

Definition match_at (r : regex) (s : str) : option match_obj :=
  m r None s (fun g _ => Some g).

(** [re.search]: the first start position with a match. *)
Fixpoint search (r : regex) (s : str) : option match_obj :=
  match match_at r s with
  | Some mo => Some mo
  | None =>
      match s with
      | [] => None
      | _ :: s' => search r s'
      end
  end.

(** [match.group(1)]; the group takes part in every match of the
    patterns below, so the default is never used. *)
Definition group1 (mo : match_obj) : str :=
  match mo with
  | Some g => g
  | None => []
  end.

Definition dquote : ascii := ascii_of_nat 34.

Definition ws : regex := Cls PyStr.isspace.

(** [.] under [re.DOTALL] *)
Definition any_char (c : ascii) : bool := true.

Definition alts (cs : str) : regex :=
  fold_right (fun c r => Alt (Chr c) r) (Cls (fun _ => false)) cs.

Definition open_quotes : str := dquote :: L "'`[".
Definition close_quotes : str := dquote :: L "'`]".

(** [CREATE\s+TABLE\s+], an optional opening quote (double quote,
    quote, backquote or opening bracket), the escaped name, an
    optional closing quote (double quote, quote, backquote or closing
    bracket), [\s*\(]. *)
Definition table_head (table_name : str) : regex :=
  seq [ lits (L "CREATE"); Plus PyStr.isspace; lits (L "TABLE");
        Plus PyStr.isspace; Opt (alts open_quotes); escape table_name;
        Opt (alts close_quotes); Star PyStr.isspace; Chr "(" ].

(** [(.*?)\);] *)
Definition table_body : regex :=
  seq [ Grp (StarLazy any_char); Chr ")"; Chr ";" ].

Definition table_pattern (table_name : str) : regex :=
  Cat (table_head table_name) table_body.

Definition isalnum (c : ascii) : bool :=
  let n := N_of_ascii c in
  ((48 <=? n) && (n <=? 57) || (65 <=? n) && (n <=? 90)
   || (97 <=? n) && (n <=? 122))%N.

(** The class of [use_pattern]: letters, digits, underscore, the two
    brackets, backquote, double quote and quote. *)
Definition ident_char (c : ascii) : bool :=
  isalnum c || PyStr.mem c (dquote :: L "_[]`'").

(** [USE\s+(C+)], [C] the class above. *)
Definition use_pattern : regex :=
  seq [ lits (L "USE"); Plus PyStr.isspace; Grp (Plus ident_char) ].

(** [CREATE\s+DATABASE\s+(C+)] *)
Definition create_pattern : regex :=
  seq [ lits (L "CREATE"); Plus PyStr.isspace; lits (L "DATABASE");
        Plus PyStr.isspace; Grp (Plus ident_char) ].

End Re.

(** ** Column descriptors *)

Module Schema.

(** The dictionary [{'name': ..., 'type': ..., 'is_identity': ...}]. *)
Record column := mk_column {
  name : str;
  type : str;
  is_identity : bool
}.

End Schema.

(** ** What the program reads of [sqlglot]

    [sqlglot] is a library, not part of the program: its parser is a
    parameter of the development.  A syntax tree is kept as far as
    [parse_schema] looks into it. *)

Module Sqlglot.

Inductive dialect := mysql | postgres | oracle | tsql.

(** An [exp.ColumnDef]: [this.name], [kind] (absent for a column
    without a type, and then [kind.sql] raises) and the constraints,
    each with its rendering [sql(dialect)]. *)
Record column_def := mk_column_def {
  cd_name : str;
  cd_kind : option (dialect -> str);
  cd_constraints : list (dialect -> str)
}.

Inductive schema_def :=
| ColumnDef (c : column_def)
| OtherDef.

(** An [exp.Create] with [this.arg_key], [this.this.name] and
    [this.expressions]; any other statement. *)
Inductive expression :=
| Create (this_arg_key : str) (this_this_name : str)
         (this_expressions : list schema_def)
| OtherExpression.

End Sqlglot.

(** ** [parse_schema] *)

Module Extractor.
Import Schema Sqlglot.

Definition dialects : list dialect := [mysql; postgres; oracle; tsql].

Definition identity_words : list str :=
  [L "IDENTITY"; L "AUTO_INCREMENT"; L "SERIAL"].

(** ['IDENTITY' in x or 'AUTO_INCREMENT' in x or 'SERIAL' in x] *)
Definition mentions_identity (x : str) : bool :=
  existsb (fun w => PyStr.contains w x) identity_words.

(** The loop over [schema_def.constraints]. *)
Definition constraints_identity (d : dialect)
           (cs : list (dialect -> str)) : bool :=
  existsb (fun c => mentions_identity (PyStr.upper (c d))) cs.

(** The loop over [expression.this.expressions]; [None] when
    [schema_def.kind.sql] raises. *)
Fixpoint columns_of (d : dialect) (defs : list schema_def)
         (columns : list column) : option (list column) :=
  match defs with
  | [] => Some columns
  | ColumnDef c :: defs' =>
      match cd_kind c with
      | None => None
      | Some kind =>
          columns_of d defs'
            (columns ++ [mk_column (cd_name c) (kind d)
                           (constraints_identity d (cd_constraints c))])
      end
  | OtherDef :: defs' => columns_of d defs' columns
  end.

(** What one turn of [for dialect in dialects] does. *)
Inductive outcome :=
| Returned (columns : list column)
| Raised
| NoMatch.

(** The loop over [expressions]. *)
Fixpoint scan (d : dialect) (table_name : str)
         (expressions : list expression) : outcome :=
  match expressions with
  | [] => NoMatch
  | Create arg_key found defs :: rest =>
      if PyStr.eqb arg_key (L "table")
         && PyStr.eqb (PyStr.lower found) (PyStr.lower table_name)
      then match columns_of d defs [] with
           | Some columns => Returned columns
           | None => Raised
           end
      else scan d table_name rest
  | OtherExpression :: rest => scan d table_name rest
  end.

Definition table_words : list str :=
  [L "PRIMARY"; L "FOREIGN"; L "KEY"; L "CONSTRAINT"; L "INDEX"].

Definition quote_chars : str := Re.dquote :: L "`'[]".

(** The body of [for line in col_definitions] (lines 150-162):
    the descriptor the clause adds, if it adds one. *)
Definition column_of_clause (line0 : str) : option column :=
  let line := PyStr.strip line0 in
  if PyStr.is_empty line
     || PyStr.startswith_any table_words (PyStr.upper line)
  then None
  else
    match PyStr.split line with
    | [] => None
    | col_name :: rest =>
        Some (mk_column
                (PyStr.strip_chars quote_chars col_name)
                (match rest with
                 | col_type :: _ => col_type
                 | [] => L "TEXT"
                 end)
                (mentions_identity (PyStr.upper line)))
    end.

Definition fallback_columns (col_definitions : list str) : list column :=
  fold_left
    (fun columns line =>
       match column_of_clause line with
       | Some c => columns ++ [c]
       | None => columns
       end)
    col_definitions [].

Section WithParser.
(** [sqlglot.parse(sql_content, read=dialect)]; [None] when it
    raises. *)
Variable sqlglot_parse : str -> dialect -> option (list expression).

(** Lines 92-121: the first dialect that returns; a dialect that
    raises or has no matching statement is passed over. *)
Fixpoint structured_pass (sql_content table_name : str)
         (ds : list dialect) : option (list column) :=
  match ds with
  | [] => None
  | d :: ds' =>
      match sqlglot_parse sql_content d with
      | None => structured_pass sql_content table_name ds'
      | Some expressions =>
          match scan d table_name expressions with
          | Returned columns => Some columns
          | Raised | NoMatch =>
              structured_pass sql_content table_name ds'
          end
      end
  end.

Definition parse_schema (sql_content table_name : str) : list column :=
  match structured_pass sql_content table_name dialects with
  | Some columns => columns
  | None =>
      match Re.search (Re.table_pattern table_name) sql_content with
      | Some mo =>
          fallback_columns (Tokenizer.split_columns (Re.group1 mo))
      | None => []
      end
  end.
End WithParser.

(** [extract_database_name]; [engine] is not looked at. *)
Definition extract_database_name (sql_content engine : str) : option str :=
  match Re.search Re.use_pattern sql_content with
  | Some mo => Some (PyStr.strip_chars quote_chars (Re.group1 mo))
  | None =>
      match Re.search Re.create_pattern sql_content with
      | Some mo => Some (PyStr.strip_chars quote_chars (Re.group1 mo))
      | None => None
      end
  end.

End Extractor.

(** ** [map_column_to_mimesis] *)

Module Classifier.

(** The provider the classifier returns, named after the Mimesis call
    it wraps. *)
Inductive generator :=
| person_email
| person_first_name
| person_last_name
| person_full_name
| person_phone_number
| address_address
| address_city
| address_country
| address_zip_code
| finance_company
| datetime_strftime            (* ['%Y-%m-%d %H:%M:%S'] *)
| decimal_number (a b : Z)
| integer_number (lo hi : Z)
| float_number_1_1000000_2     (* [float_number(1.0, 1000000.0, 2)] *)
| text_word
| choice_bool.

Definition has (sub : string) (s : str) : bool := PyStr.contains (L sub) s.

Definition map_column_to_mimesis (col_name col_type : str) : generator :=
  let name := PyStr.lower col_name in
  let t := PyStr.lower col_type in
  if has "email" name then person_email
  else if has "first_name" name || has "firstname" name
  then person_first_name
  else if has "last_name" name || has "lastname" name
  then person_last_name
  else if has "name" name then person_full_name
  else if has "phone" name || has "tel" name then person_phone_number
  else if has "address" name then address_address
  else if has "city" name then address_city
  else if has "country" name then address_country
  else if has "zip" name || has "postal" name then address_zip_code
  else if has "company" name then finance_company
  else if has "date" name || has "created_at" name
          || has "updated_at" name
  then datetime_strftime
  else if has "price" name || has "amount" name || has "salary" name
  then decimal_number 10 2
  else if PyStr.startswith (L "id_") name
          && negb (PyStr.eqb name (L "id_usuario"))
          && negb (PyStr.eqb name (L "id"))
  then integer_number 1 10
  else if has "int" t then integer_number 1 100000
  else if has "float" t || has "decimal" t || has "numeric" t
          || has "double" t
  then float_number_1_1000000_2
  else if has "char" t || has "text" t then text_word
  else if has "bool" t || has "bit" t then choice_bool
  else text_word.

(** The name rules that come before the [id_] rule (lines 25-49), as
    the specification numbers them: rules 1 to 7. *)
Definition earlier_name_rule (name : str) : bool :=
  has "email" name
  || (has "first_name" name || has "firstname" name
      || has "last_name" name || has "lastname" name || has "name" name)
  || (has "phone" name || has "tel" name)
  || (has "address" name || has "city" name || has "country" name
      || has "zip" name || has "postal" name)
  || has "company" name
  || (has "date" name || has "created_at" name || has "updated_at" name)
  || (has "price" name || has "amount" name || has "salary" name).

End Classifier.

(** ** [format_sql_value] *)

Module Formatter.

(** A Python value as the formatter sees it.  A float and an object of
    any other class are given by the text [str] returns for them. *)
Inductive value :=
| VNone
| VBool (b : bool)
| VInt (n : Z)
| VFloat (shown : str)
| VStr (s : str)
| VOther (shown : str).

Definition is_none (v : value) : bool :=
  match v with VNone => true | _ => false end.

(** [isinstance(val, bool)] *)
Definition isinstance_bool (v : value) : bool :=
  match v with VBool _ => true | _ => false end.

(** [isinstance(val, (int, float))]; [bool] is a subclass of [int]. *)
Definition isinstance_int_float (v : value) : bool :=
  match v with
  | VBool _ | VInt _ | VFloat _ => true
  | _ => false
  end.

Definition truthy (v : value) : bool :=
  match v with
  | VNone => false
  | VBool b => b
  | VInt n => negb (n =? 0)%Z
  | VFloat _ | VOther _ => true
  | VStr s => negb (PyStr.is_empty s)
  end.

(** [str(val)]; for an integer, its decimal text, which is what [str]
    gives as long as the integer is within the digit limit of the
    interpreter. *)
Definition py_str (v : value) : str :=
  match v with
  | VNone => L "None"
  | VBool true => L "True"
  | VBool false => L "False"
  | VInt n => L (DecimalString.NilZero.string_of_int (Z.to_int n))
  | VFloat shown => shown
  | VStr s => s
  | VOther shown => shown
  end.

Definition format_sql_value (val : value) (engine : str) : str :=
  if is_none val then L "NULL"
  else if isinstance_bool val
  then (if PyStr.eqb engine (L "mssql")
        then (if truthy val then L "1" else L "0")
        else (if truthy val then L "TRUE" else L "FALSE"))
  else if isinstance_int_float val then py_str val
  else
    let escaped_val := PyStr.replace1 "'" (L "''") (py_str val) in
    L "'" ++ escaped_val ++ L "'".

End Formatter.

(** ** The notions the properties are stated with *)

Module Props.

(** The depth counter the tokenizer is described with. *)
Definition depth_after (d : Z) (c : ascii) : Z :=
  if Ascii.eqb c "(" then d + 1
  else if Ascii.eqb c ")" then d - 1
  else d.

(** The depth after [s], entered at depth [d]; [None] when a closing
    parenthesis has no opening one before it. *)
Fixpoint walk (d : Z) (s : str) : option Z :=
  match s with
  | [] => Some d
  | c :: s' =>
      let d' := depth_after d c in
      if (0 <=? d')%Z then walk d' s' else None
  end.

(** The parentheses of [s] are balanced. *)
Definition balanced (s : str) : bool :=
  match walk 0 s with
  | Some d => (d =? 0)%Z
  | None => false
  end.

(** The number of commas of [s] at depth zero, [s] entered at depth
    [d]. *)
Fixpoint top_commas (d : Z) (s : str) : nat :=
  match s with
  | [] => 0
  | c :: s' =>
      (if Ascii.eqb c "," && (d =? 0)%Z then 1 else 0)
      + top_commas (depth_after d c) s'
  end.

(** The last character of [s] satisfies [p]. *)
Fixpoint last_is (p : ascii -> bool) (s : str) : bool :=
  match s with
  | [] => false
  | [c] => p c
  | _ :: s' => last_is p s'
  end.

Definition ends_with_comma (s : str) : bool := last_is (Ascii.eqb ",") s.
Definition trailing_space (s : str) : bool := last_is PyStr.isspace s.

(** The last character of [s] is a comma read at depth zero. *)
Fixpoint last_is_separator (d : Z) (s : str) : bool :=
  match s with
  | [] => false
  | [c] => Ascii.eqb c "," && (d =? 0)%Z
  | c :: s' => last_is_separator (depth_after d c) s'
  end.

(** The fragments of [s] between the commas at depth zero, as they
    stand in the text; [cur] is the fragment being read. *)
Fixpoint fragments_from (d : Z) (cur s : str) : list str :=
  match s with
  | [] => [cur]
  | c :: s' =>
      if Ascii.eqb c "," && (d =? 0)%Z
      then cur :: fragments_from d [] s'
      else fragments_from (depth_after d c) (cur ++ [c]) s'
  end.

Definition fragments (s : str) : list str := fragments_from 0 [] s.

(** The last fragment has no character: the text is empty, or ends in
    a separating comma. *)
Definition last_fragment_empty (d : Z) (cur s : str) : bool :=
  match s with
  | [] => PyStr.is_empty cur
  | _ => last_is_separator d s
  end.

(** A list of fragments without its last one when that one has no
    character. *)
Fixpoint drop_empty_last (fs : list str) : list str :=
  match fs with
  | [] => []
  | [f] => match f with [] => [] | _ => [f] end
  | f :: fs' => f :: drop_empty_last fs'
  end.

(** The specification's test on a clause: its first token is, up to
    case, one of the table-level words. *)
Definition first_token_is_table_word (clause : str) : bool :=
  match PyStr.split clause with
  | token :: _ =>
      existsb (PyStr.eqb (PyStr.upper token)) Extractor.table_words
  | [] => false
  end.

(** The specification's escaping: every quote character doubled. *)
Definition double_quotes (s : str) : str :=
  flat_map (fun c => if Ascii.eqb c "'" then [c; c] else [c]) s.

(** [s] opens with [);]. *)
Definition closes (s : str) : bool :=
  match s with
  | x :: y :: _ => Ascii.eqb x ")" && Ascii.eqb y ";"
  | _ => false
  end.

(** The text of [s] before its first [);] when there is one. *)
Fixpoint before_close (s : str) : option str :=
  match s with
  | [] => None
  | c :: s' =>
      if closes s then Some [] else option_map (cons c) (before_close s')
  end.

(** An optional quote character out of [qs]. *)
Definition optional_quote (qs q : str) : Prop :=
  q = [] \/ exists x, In x qs /\ q = [x].

(** The declared region: [CREATE TABLE], the name between [o] and
    [c], the body in parentheses, and the semicolon. *)
Definition region (o table_name c body : str) : str :=
  L "CREATE TABLE " ++ o ++ table_name ++ c ++ L " (" ++ body ++ L ");".

(** The strings a pattern matches as a whole. *)
Fixpoint lang (r : Re.regex) (s : str) : Prop :=
  match r with
  | Re.Eps => s = []
  | Re.Chr c => exists x, s = [x] /\ Re.chr_eq c x = true
  | Re.Cls p => exists x, s = [x] /\ p x = true
  | Re.Cat r1 r2 => exists s1 s2, s = s1 ++ s2 /\ lang r1 s1 /\ lang r2 s2
  | Re.Alt r1 r2 => lang r1 s \/ lang r2 s
  | Re.Opt r1 => s = [] \/ lang r1 s
  | Re.Star p | Re.StarLazy p => forallb p s = true
  | Re.Plus p => s <> [] /\ forallb p s = true
  | Re.Grp r1 => lang r1 s
  end.

(** The script of the end-to-end scenario. *)
Definition users_script : str :=
  L "CREATE TABLE users (id INT IDENTITY(1,1), email VARCHAR(255), created_at DATETIME);".

(** No dialect returns from the structured pass: its parse raises, or
    the scan of its statements raises or finds no matching table. *)
Definition no_structured_match
           (sqlglot_parse :
              str -> Sqlglot.dialect -> option (list Sqlglot.expression))
           (sql_content table_name : str) : Prop :=
  forall d, In d Extractor.dialects ->
    match sqlglot_parse sql_content d with
    | None => True
    | Some expressions =>
        forall columns,
          Extractor.scan d table_name expressions
          <> Extractor.Returned columns
    end.

(** Some token of the text is the word USE, in any case. *)
Definition has_use_word (s : str) : bool :=
  existsb (fun token => PyStr.eqb (PyStr.upper token) (L "USE"))
          (PyStr.split s).

(** Every match of the pattern goes through its group. *)
Fixpoint sets_group (r : Re.regex) : bool :=
  match r with
  | Re.Grp _ => true
  | Re.Cat r1 r2 => sets_group r1 || sets_group r2
  | Re.Alt r1 r2 => sets_group r1 && sets_group r2
  | _ => false
  end.

(** White space or one of the quote characters. *)
Definition inert (c : ascii) : bool :=
  PyStr.isspace c || PyStr.mem c Extractor.quote_chars.

End Props.

(** ** [main] (lines 197-260)

    [main] is taken up where [parser.parse_args()] has returned its
    namespace: a command line that [argparse] refuses, or one that asks
    for the help text, ends the program inside that call (lines 187-195)
    and never reaches the code below.  The parsed arguments, the file
    system as far as the script is read from it, and the Mimesis
    providers are what the rest of [main] is run in: the providers draw
    their values from a source of randomness that is passed along. *)

Module Main.
Import Schema.

Definition nl : ascii := ascii_of_nat 10.

(** [sep.join(parts)] *)
Fixpoint join (sep : str) (parts : list str) : str :=
  match parts with
  | [] => []
  | [x] => x
  | x :: parts' => x ++ sep ++ join sep parts'
  end.

(** [str(n)] for an integer. *)
Definition str_of_int (n : Z) : str :=
  L (DecimalString.NilZero.string_of_int (Z.to_int n)).

(** The namespace [argparse] returns; [--output] and [--db] are [None]
    when they are not given. *)
Record arguments := mk_arguments {
  script : str;
  engine : str;
  table : str;
  rows : Z;
  output : option str;
  db : option str
}.

(** The truth value of an optional string: [None] and the empty string
    are false. *)
Definition truthy (x : option str) : bool :=
  match x with
  | Some (_ :: _) => true
  | _ => false
  end.

(** [x or y] *)
Definition or_else (x y : option str) : option str :=
  if truthy x then x else y.

(** The text of a string that is there. *)
Definition text (x : option str) : str :=
  match x with
  | Some s => s
  | None => []
  end.

(** [d[k] = v] on a dictionary kept in insertion order: a key that is
    there keeps its place and takes the new value. *)
Fixpoint dict_set {V : Type} (k : str) (v : V) (d : list (str * V))
  : list (str * V) :=
  match d with
  | [] => [(k, v)]
  | (k', v') :: d' =>
      if PyStr.eqb k' k then (k', v) :: d' else (k', v') :: dict_set k v d'
  end.

(** How [main] ends: [sys.exit(code)] after some lines were printed, or
    normally, with the lines printed, the file opened for writing and
    the strings written to it, one for each [f.write]. *)
Inductive outcome :=
| SysExit (stdout : list str) (code : Z)
| Finished (stdout : list str) (output_file : str) (writes : list str).

(** [{col['name']: map_column_to_mimesis(...) for col in columns}] *)
Definition providers_of (columns : list column)
  : list (str * Classifier.generator) :=
  fold_left
    (fun d col =>
       dict_set (name col)
                (Classifier.map_column_to_mimesis (name col) (type col)) d)
    columns [].

(** The header lines of the dump (lines 228-232). *)
Definition header_writes (a : arguments) (identity_columns : list column)
  : list str :=
  [ L "-- Synthetic data for table " ++ table a ++ [nl];
    L "-- Generated for engine: " ++ engine a ++ [nl] ]
  ++ (match identity_columns with
      | [] => []
      | _ =>
          [ L "-- Skipped identity columns: "
            ++ join (L ", ") (map name identity_columns) ++ [nl] ]
      end)
  ++ [ [nl] ].

(** Lines 234-238. *)
Definition use_writes (a : arguments) (db_name : option str) : list str :=
  if truthy db_name
  then if PyStr.eqb (engine a) (L "mssql")
       then [ L "USE [" ++ text db_name ++ L "];" ++ [nl]
              ++ L "GO" ++ [nl; nl] ]
       else [ L "USE " ++ text db_name ++ L ";" ++ [nl; nl] ]
  else [].

(** Lines 240-242. *)
Definition nocheck_writes (a : arguments) : list str :=
  if PyStr.eqb (engine a) (L "mssql")
  then [ L "-- Disable constraints for synthetic data insertion" ++ [nl];
         L "EXEC sp_msforeachtable 'ALTER TABLE ? NOCHECK CONSTRAINT ALL';"
         ++ [nl] ++ L "GO" ++ [nl; nl] ]
  else [].

(** Lines 253-258. *)
Definition closing_writes (a : arguments) : list str :=
  (if PyStr.eqb (engine a) (L "oracle") then [ L "COMMIT;" ++ [nl] ]
   else [])
  ++ (if PyStr.eqb (engine a) (L "mssql")
      then [ nl :: L "-- Re-enable constraints" ++ [nl];
             L "EXEC sp_msforeachtable 'ALTER TABLE ? WITH CHECK CHECK CONSTRAINT ALL';"
             ++ [nl] ++ L "GO" ++ [nl] ]
      else []).

(** Lines 247-250, for one [row_data]. *)
Definition insert_stmt (a : arguments)
           (row_data : list (str * Formatter.value)) : str :=
  L "INSERT INTO " ++ table a ++ L " ("
  ++ join (L ", ") (map fst row_data)
  ++ L ") VALUES ("
  ++ join (L ", ")
          (map (fun kv => Formatter.format_sql_value (snd kv) (engine a))
               row_data)
  ++ L ");" ++ [nl].

(** The lines printed for the columns (lines 217-220). *)
Definition column_lines (a : arguments) (all_columns : list column)
  : list str :=
  (L "Detected columns for table '" ++ table a ++ L "':")
  :: map (fun col =>
            L "  - " ++ name col ++ L " (" ++ type col ++ L ") "
            ++ (if is_identity col then L "[SKIP - IDENTITY]" else []))
         all_columns.

Section World.
(** [sqlglot.parse], as for [parse_schema]. *)
Variable sqlglot_parse :
  str -> Sqlglot.dialect -> option (list Sqlglot.expression).
(** The content of the file at a path; [None] when there is no file. *)
Variable read_file : str -> option str.
(** The state of the random source, and what a call of a provider
    returns and leaves. *)
Variable Rng : Type.
Variable call : Classifier.generator -> Rng -> Formatter.value * Rng.
(** The random source [Generic(locale=Locale.EN)] starts from. *)
Variable seed : Rng.

(** [{name: provider() for name, provider in providers.items()}] *)
Fixpoint row_data_of (providers : list (str * Classifier.generator))
         (row_data : list (str * Formatter.value)) (r : Rng)
  : list (str * Formatter.value) * Rng :=
  match providers with
  | [] => (row_data, r)
  | (col_name, provider) :: providers' =>
      let (val, r') := call provider r in
      row_data_of providers' (dict_set col_name val row_data) r'
  end.

(** [for _ in range(n)]: the statements written, one for each turn. *)
Fixpoint insert_writes (a : arguments)
         (providers : list (str * Classifier.generator))
         (n : nat) (r : Rng) : list str :=
  match n with
  | O => []
  | S n' =>
      let (row_data, r') := row_data_of providers [] r in
      insert_stmt a row_data :: insert_writes a providers n' r'
  end.

Definition main (a : arguments) : outcome :=
  match read_file (script a) with
  | None =>
      SysExit [L "Error: Script file '" ++ script a ++ L "' not found."] 1
  | Some sql_content =>
      let all_columns :=
        Extractor.parse_schema sqlglot_parse sql_content (table a) in
      match all_columns with
      | [] =>
          SysExit
            [L "Error: Could not find table '" ++ table a
             ++ L "' in the script."] 1
      | _ =>
          let db_name :=
            or_else (db a)
                    (Extractor.extract_database_name sql_content (engine a))
          in
          let columns :=
            filter (fun c => negb (is_identity c)) all_columns in
          let identity_columns := filter is_identity all_columns in
          let providers := providers_of columns in
          let output_file :=
            text (or_else (output a) (Some (table a ++ L "_dump.sql"))) in
          Finished
            ((if truthy db_name
              then [L "Detected database context: '" ++ text db_name
                    ++ L "'"]
              else [])
             ++ column_lines a all_columns
             ++ [nl :: L "Successfully generated " ++ str_of_int (rows a)
                 ++ L " rows in '" ++ output_file ++ L "'."])
            output_file
            (header_writes a identity_columns
             ++ use_writes a db_name
             ++ nocheck_writes a
             ++ insert_writes a providers (Z.to_nat (rows a)) seed
             ++ closing_writes a)
      end
  end.
End World.

End Main.

(** ** More notions for the properties *)

Module Notions.
Import Schema.

(** The value of the depth counter after [s], entered at [d]. *)
Definition depth_of (d : Z) (s : str) : Z :=
  fold_left Props.depth_after s d.

(** A clause as a column list holds it: not empty, without white space
    around it, with balanced parentheses and no comma outside them. *)
Definition plain_clause (c : str) : Prop :=
  c <> [] /\ PyStr.strip c = c /\ Props.balanced c = true
  /\ Props.top_commas 0 c = 0.

(** The descriptor a kept clause gives, as a list. *)
Definition columns_of_clause (clause : str) : list column :=
  match Extractor.column_of_clause clause with
  | Some c => [c]
  | None => []
  end.

(** The longest prefix of [s] whose characters satisfy [p]. *)
Fixpoint take_while (p : ascii -> bool) (s : str) : str :=
  match s with
  | [] => []
  | c :: s' => if p c then c :: take_while p s' else []
  end.

(** [s] does not open with a character that satisfies [p]. *)
Definition stops (p : ascii -> bool) (s : str) : bool :=
  match s with
  | [] => true
  | c :: _ => negb (p c)
  end.

(** Two texts equal up to the case of their letters. *)
Definition same_letters (w s : str) : Prop :=
  Forall2 (fun c x => Re.chr_eq c x = true) w s.

(** No character of [s] is the letter [c], in either case. *)
Definition without_letter (c : ascii) (s : str) : bool :=
  forallb (fun x => negb (Re.chr_eq c x)) s.

(** A region as the fallback pattern allows it: the two keywords in any
    case, white space [w1], [w2] after them, the name in any case
    between optional quotes, white space [w3], the body in parentheses
    and the semicolon. *)
Definition free_region (kw1 w1 kw2 w2 o found c w3 body : str) : str :=
  kw1 ++ w1 ++ kw2 ++ w2 ++ o ++ found ++ c ++ w3
  ++ "("%char :: body ++ L ");".

(** The column definitions among the members of a schema. *)
Fixpoint column_defs (defs : list Sqlglot.schema_def)
  : list Sqlglot.column_def :=
  match defs with
  | [] => []
  | Sqlglot.ColumnDef c :: defs' => c :: column_defs defs'
  | Sqlglot.OtherDef :: defs' => column_defs defs'
  end.

(** A dialect does not return from the structured pass. *)
Definition passes_over
           (sqlglot_parse :
              str -> Sqlglot.dialect -> option (list Sqlglot.expression))
           (sql_content table_name : str) (d : Sqlglot.dialect) : Prop :=
  match sqlglot_parse sql_content d with
  | None => True
  | Some expressions =>
      forall columns,
        Extractor.scan d table_name expressions
        <> Extractor.Returned columns
  end.

(** Group 1 of a match is set, to a run of characters of the class of
    the detector's patterns. *)
Definition group_of_class (mo : Re.match_obj) : Prop :=
  exists g, mo = Some g /\ g <> [] /\ forallb Re.ident_char g = true.

(** Reading a string literal of SQL: between two quote characters, two
    quote characters stand for one. *)
Fixpoint unquote_rest (s : str) : option str :=
  match s with
  | [] => None
  | c :: s' =>
      if Ascii.eqb c "'"
      then match s' with
           | [] => Some []
           | c' :: s'' =>
               if Ascii.eqb c' "'"
               then option_map (cons c) (unquote_rest s'')
               else None
           end
      else option_map (cons c) (unquote_rest s')
  end.

Definition unquote (s : str) : option str :=
  match s with
  | c :: s' => if Ascii.eqb c "'" then unquote_rest s' else None
  | [] => None
  end.

(** The keys of a dictionary filled from [keys] in order: each key at
    the place of its first occurrence. *)
Fixpoint first_occurrences (seen keys : list str) : list str :=
  match keys with
  | [] => []
  | k :: keys' =>
      if existsb (PyStr.eqb k) seen then first_occurrences seen keys'
      else k :: first_occurrences (k :: seen) keys'
  end.

(** The last column of the list with a given name. *)
Definition last_named (k : str) (columns : list column) : option column :=
  find (fun col => PyStr.eqb (name col) k) (rev columns).

(** The writes that are INSERT statements. *)
Definition is_insert (w : str) : bool := PyStr.startswith (L "INSERT INTO ") w.

(** A run to try [main] on: no dialect parses, every path holds the
    same script, and the providers return the integers 0, 1, 2, ... *)
Definition demo_script : str :=
  L "CREATE TABLE t (id INT IDENTITY(1,1), qty INT, note TEXT, qty INT);".

Abbreviation demo_main :=
  (Main.main (fun _ _ => None) (fun _ => Some demo_script) nat
             (fun _ r => (Formatter.VInt (Z.of_nat r), S r)) 0).

Definition demo_arguments (engine : string) (db : option str)
  : Main.arguments :=
  Main.mk_arguments (L "schema.sql") (L engine) (L "t") 2 None db.

(** The parts of an outcome. *)
Definition stdout_of (o : Main.outcome) : list str :=
  match o with
  | Main.SysExit stdout _ => stdout
  | Main.Finished stdout _ _ => stdout
  end.

Definition output_file_of (o : Main.outcome) : str :=
  match o with
  | Main.SysExit _ _ => []
  | Main.Finished _ output_file _ => output_file
  end.

Definition writes_of (o : Main.outcome) : list str :=
  match o with
  | Main.SysExit _ _ => []
  | Main.Finished _ _ writes => writes
  end.

(** A script whose table has an identity column only. *)
Definition serial_script : str := L "CREATE TABLE t (id SERIAL);".

Abbreviation serial_main :=
  (Main.main (fun _ _ => None) (fun _ => Some serial_script) nat
             (fun _ r => (Formatter.VInt (Z.of_nat r), S r)) 0).

End Notions.

(** * Properties *)

(** ** Characters and strings *)

Module PyStrFacts.
Import PyStr.

Ltac by_cases_on c :=
  destruct c as [[] [] [] [] [] [] [] []]; try reflexivity; try discriminate.

Lemma isspace_no_paren (c : ascii) :
  isspace c = true ->
  Ascii.eqb c "(" = false /\ Ascii.eqb c ")" = false
  /\ Ascii.eqb c "," = false.
Proof. by_cases_on c; intros _; repeat split; reflexivity. Qed.

Lemma eqb_eq (a b : str) : eqb a b = true <-> a = b.
Proof.
  revert b; induction a as [|x a IH]; intros [|y b]; simpl;
    try (split; [discriminate | discriminate]); try tauto.
  rewrite andb_true_iff, Ascii.eqb_eq, IH.
  split; [intros [-> ->]; reflexivity | intros E; inversion E; auto].
Qed.

Lemma eqb_refl (a : str) : eqb a a = true.
Proof. apply eqb_eq; reflexivity. Qed.

Lemma drop_while_suffix (p : ascii -> bool) (s : str) :
  exists w, s = w ++ drop_while p s /\ forallb p w = true.
Proof.
  induction s as [|c s (w & E & F)]; simpl.
  - exists []; auto.
  - destruct (p c) eqn:P.
    + exists (c :: w); simpl; rewrite P, F; split; [f_equal; exact E | reflexivity].
    + exists []; auto.
Qed.

Lemma drop_while_head (p : ascii -> bool) (s : str) :
  match drop_while p s with
  | c :: _ => p c = false
  | [] => True
  end.
Proof.
  induction s as [|c s IH]; simpl; [exact I|].
  destruct (p c) eqn:P; [exact IH | exact P].
Qed.

Lemma rstrip_by_prefix (p : ascii -> bool) (s : str) :
  exists w, s = rstrip_by p s ++ w /\ forallb p w = true.
Proof.
  unfold rstrip_by.
  destruct (drop_while_suffix p (rev s)) as (w & E & F).
  exists (rev w); split.
  - rewrite <- rev_app_distr, <- E, rev_involutive; reflexivity.
  - rewrite forallb_forall in *; intros x Hx; apply F, in_rev; exact Hx.
Qed.

Lemma strip_by_decompose (p : ascii -> bool) (s : str) :
  exists w1 w2, s = w1 ++ strip_by p s ++ w2
                /\ forallb p w1 = true /\ forallb p w2 = true.
Proof.
  unfold strip_by, lstrip_by.
  destruct (drop_while_suffix p s) as (w1 & E1 & F1).
  destruct (rstrip_by_prefix p (drop_while p s)) as (w2 & E2 & F2).
  exists w1, w2; repeat split; auto.
  rewrite <- E2; exact E1.
Qed.

Lemma last_is_app_single (p : ascii -> bool) (s : str) (c : ascii) :
  Props.last_is p (s ++ [c]) = p c.
Proof.
  induction s as [|x s IH]; [reflexivity|].
  change ((x :: s) ++ [c]) with (x :: (s ++ [c])).
  simpl Props.last_is; rewrite IH.
  destruct (s ++ [c]) eqn:E; [destruct s; discriminate | reflexivity].
Qed.

Lemma last_is_rev (p : ascii -> bool) (s : str) :
  Props.last_is p (rev s) = match s with c :: _ => p c | [] => false end.
Proof.
  destruct s as [|c s]; [reflexivity|].
  simpl rev; apply last_is_app_single.
Qed.

Lemma rstrip_by_no_trailing (p : ascii -> bool) (s : str) :
  Props.last_is p (rstrip_by p s) = false.
Proof.
  unfold rstrip_by; rewrite last_is_rev.
  pose proof (drop_while_head p (rev s)) as H.
  destruct (drop_while p (rev s)); [reflexivity | exact H].
Qed.

Lemma strip_no_trailing (s : str) : Props.trailing_space (strip s) = false.
Proof. apply rstrip_by_no_trailing. Qed.

End PyStrFacts.

(** ** The comma-aware split *)

Module TokenizerFacts.
Import Tokenizer Props.

Lemma step_depth (st : state) (c : ascii) :
  paren_depth (step st c) = depth_after (paren_depth st) c.
Proof.
  unfold step, depth_after.
  destruct (Ascii.eqb c "("); [reflexivity|].
  destruct (Ascii.eqb c ")"); [reflexivity|].
  destruct (Ascii.eqb c "," && (paren_depth st =? 0)%Z); reflexivity.
Qed.

Lemma comma_depth (d : Z) (c : ascii) :
  Ascii.eqb c "," = true -> depth_after d c = d.
Proof.
  intros E; apply Ascii.eqb_eq in E; subst c; reflexivity.
Qed.

(** What [step] does, read off the separator test. *)
Lemma step_cases (st : state) (c : ascii) :
  step st c =
  if Ascii.eqb c "," && (paren_depth st =? 0)%Z
  then mk_state (col_definitions st ++ [PyStr.strip (current_col st)]) []
                (paren_depth st)
  else mk_state (col_definitions st) (current_col st ++ [c])
                (depth_after (paren_depth st) c).
Proof.
  unfold step, depth_after.
  destruct (Ascii.eqb c "(") eqn:E1.
  { apply Ascii.eqb_eq in E1; subst c; reflexivity. }
  destruct (Ascii.eqb c ")") eqn:E2.
  { apply Ascii.eqb_eq in E2; subst c; reflexivity. }
  reflexivity.
Qed.

Lemma fragments_from_nonempty (d : Z) (cur s : str) :
  fragments_from d cur s <> [].
Proof.
  revert d cur; induction s as [|c s IH]; intros d cur; simpl.
  - discriminate.
  - destruct (Ascii.eqb c "," && (d =? 0)%Z); [discriminate | apply IH].
Qed.

Lemma drop_empty_last_cons (f : str) (fs : list str) :
  fs <> [] -> drop_empty_last (f :: fs) = f :: drop_empty_last fs.
Proof. destruct fs; [congruence | reflexivity]. Qed.

(** The loop computes the stripped fragments, the last one left out
    when it has no character. *)
Lemma run_fragments (s : str) (st : state) :
  finish (fold_left step s st)
  = col_definitions st
    ++ map PyStr.strip
         (drop_empty_last
            (fragments_from (paren_depth st) (current_col st) s)).
Proof.
  revert st; induction s as [|c s IH]; intros st.
  - unfold finish; simpl.
    destruct (current_col st); simpl; [rewrite app_nil_r|]; reflexivity.
  - simpl fold_left; rewrite IH, step_cases; simpl fragments_from.
    destruct (Ascii.eqb c "," && (paren_depth st =? 0)%Z);
      cbn [col_definitions current_col paren_depth].
    + rewrite drop_empty_last_cons by apply fragments_from_nonempty.
      rewrite <- app_assoc; reflexivity.
    + reflexivity.
Qed.

Lemma split_columns_fragments (s : str) :
  split_columns s = map PyStr.strip (drop_empty_last (fragments s)).
Proof. unfold split_columns; rewrite run_fragments; reflexivity. Qed.

Lemma fragments_count (s : str) :
  forall d cur,
    length (drop_empty_last (fragments_from d cur s))
    = top_commas d s + (if last_fragment_empty d cur s then 0 else 1).
Proof.
  induction s as [|c s IH]; intros d cur.
  - destruct cur; reflexivity.
  - simpl fragments_from; simpl top_commas.
    destruct (Ascii.eqb c "," && (d =? 0)%Z) eqn:Sep.
    + rewrite drop_empty_last_cons by apply fragments_from_nonempty.
      simpl length; rewrite IH.
      apply andb_true_iff in Sep; destruct Sep as [Ec Ed].
      rewrite (comma_depth d c Ec).
      replace (last_fragment_empty d cur (c :: s))
        with (last_fragment_empty d [] s); [lia|].
      unfold last_fragment_empty; simpl.
      destruct s; [rewrite Ec, Ed; reflexivity|].
      rewrite (comma_depth d c Ec); reflexivity.
    + rewrite IH.
      replace (last_fragment_empty d cur (c :: s))
        with (last_fragment_empty (depth_after d c) (cur ++ [c]) s);
        [lia|].
      unfold last_fragment_empty; simpl.
      destruct s; [rewrite Sep; destruct cur; reflexivity | reflexivity].
Qed.

Lemma walk_nonneg (s : str) :
  forall d e, (0 <= d)%Z -> walk d s = Some e -> (0 <= e)%Z.
Proof.
  induction s as [|c s IH]; simpl; intros d e Hd H.
  - congruence.
  - destruct (0 <=? depth_after d c)%Z eqn:E; [|discriminate].
    apply (IH _ _ (proj1 (Z.leb_le _ _) E) H).
Qed.

Lemma walk_app (a b : str) :
  forall d, walk d (a ++ b)
            = match walk d a with Some e => walk e b | None => None end.
Proof.
  induction a as [|c a IH]; simpl; intros d; [reflexivity|].
  destruct (0 <=? depth_after d c)%Z; [apply IH | reflexivity].
Qed.

Lemma walk_spaces (w : str) :
  forall d, (0 <= d)%Z -> forallb PyStr.isspace w = true ->
            walk d w = Some d.
Proof.
  induction w as [|c w IH]; simpl; intros d Hd F; [reflexivity|].
  apply andb_true_iff in F; destruct F as [Fc Fw].
  destruct (PyStrFacts.isspace_no_paren c Fc) as (E1 & E2 & _).
  unfold depth_after; rewrite E1, E2.
  destruct (0 <=? d)%Z eqn:E; [apply IH; assumption|].
  apply Z.leb_gt in E; lia.
Qed.

Lemma strip_balanced (s : str) :
  balanced s = true -> balanced (PyStr.strip s) = true.
Proof.
  unfold balanced.
  destruct (PyStrFacts.strip_by_decompose PyStr.isspace s)
    as (w1 & w2 & E & F1 & F2).
  fold (PyStr.strip s) in E.
  rewrite E at 1.
  rewrite walk_app, (walk_spaces w1 0 ltac:(lia) F1), walk_app.
  destruct (walk 0 (PyStr.strip s)) as [e|] eqn:W; [|discriminate].
  assert (He : (0 <= e)%Z) by (apply (walk_nonneg _ _ _ (Z.le_refl 0) W)).
  rewrite (walk_spaces w2 e He F2).
  trivial.
Qed.

Lemma fragments_balanced (s : str) :
  forall d cur,
    walk 0 cur = Some d -> walk d s = Some 0%Z ->
    Forall (fun seg => balanced seg = true)
           (map PyStr.strip (drop_empty_last (fragments_from d cur s))).
Proof.
  induction s as [|c s IH]; intros d cur Hc Hs.
  - simpl in Hs; injection Hs as ->.
    simpl. destruct cur; simpl; constructor; [|constructor].
    apply strip_balanced; unfold balanced; rewrite Hc; reflexivity.
  - simpl in Hs.
    destruct (0 <=? depth_after d c)%Z eqn:Hd; [|discriminate].
    apply Z.leb_le in Hd.
    simpl fragments_from.
    destruct (Ascii.eqb c "," && (d =? 0)%Z) eqn:Sep.
    + apply andb_true_iff in Sep; destruct Sep as [Ec Ed].
      apply Z.eqb_eq in Ed; subst d.
      rewrite (comma_depth 0 c Ec) in Hs.
      rewrite drop_empty_last_cons by apply fragments_from_nonempty.
      simpl map; constructor.
      * apply strip_balanced; unfold balanced; rewrite Hc; reflexivity.
      * apply IH; [reflexivity | exact Hs].
    + apply IH; [|exact Hs].
      rewrite walk_app, Hc; simpl.
      destruct (0 <=? depth_after d c)%Z eqn:Hd'; [reflexivity|].
      apply Z.leb_gt in Hd'; lia.
Qed.

Lemma balanced_last_separator (s : str) :
  forall d, walk d s = Some 0%Z -> s <> [] ->
            last_is_separator d s = ends_with_comma s.
Proof.
  unfold ends_with_comma.
  induction s as [|c s IH]; intros d H Hne; [congruence|].
  simpl in H.
  destruct (0 <=? depth_after d c)%Z; [|discriminate].
  destruct s as [|c' s].
  - simpl in H; injection H as H.
    cbn [last_is_separator last_is].
    rewrite (Ascii.eqb_sym "," c).
    destruct (Ascii.eqb c ",") eqn:Ec; [|reflexivity].
    rewrite (comma_depth d c Ec) in H; subst d; reflexivity.
  - change (last_is_separator d (c :: c' :: s))
      with (last_is_separator (depth_after d c) (c' :: s)).
    change (last_is (Ascii.eqb ",") (c :: c' :: s))
      with (last_is (Ascii.eqb ",") (c' :: s)).
    apply IH; [exact H | discriminate].
Qed.

Lemma fold_columns_skip_empty (clauses : list str) :
  forall columns,
    fold_left
      (fun columns line =>
         match Extractor.column_of_clause line with
         | Some c => columns ++ [c]
         | None => columns
         end) clauses columns
    = fold_left
        (fun columns line =>
           match Extractor.column_of_clause line with
           | Some c => columns ++ [c]
           | None => columns
           end)
        (filter (fun clause => negb (PyStr.is_empty clause)) clauses)
        columns.
Proof.
  induction clauses as [|clause clauses IH]; intros columns;
    [reflexivity|].
  destruct clause as [|c clause]; simpl filter.
  - simpl fold_left at 1; apply IH.
  - simpl fold_left; apply IH.
Qed.

(** C3, as the code has it: for a text with balanced parentheses the
    number of clauses is the number of commas at depth zero, plus one
    unless the text is empty or ends in a comma (the fragment after
    the last separator has no character then and is dropped); and
    every clause has balanced parentheses. *)
Theorem split_columns_count_balanced (s : str) :
  balanced s = true ->
  length (split_columns s)
  = top_commas 0 s
    + (if PyStr.is_empty s || ends_with_comma s then 0 else 1)
  /\ Forall (fun seg => balanced seg = true) (split_columns s).
Proof.
  intros B; rewrite split_columns_fragments; split.
  - rewrite length_map; unfold fragments; rewrite fragments_count.
    f_equal.
    unfold balanced in B.
    destruct (walk 0 s) as [d|] eqn:W; [|discriminate].
    apply Z.eqb_eq in B; subst d.
    destruct s as [|c s]; [reflexivity|].
    unfold last_fragment_empty.
    rewrite (balanced_last_separator (c :: s) 0 W) by discriminate.
    reflexivity.
  - unfold balanced in B.
    destruct (walk 0 s) as [d|] eqn:W; [|discriminate].
    apply Z.eqb_eq in B; subst d.
    apply fragments_balanced; [reflexivity | exact W].
Qed.

Lemma split_columns_count_balanced_witness :
  balanced (L "a INT, b DECIMAL(10,2),") = true
  /\ (length (split_columns (L "a INT, b DECIMAL(10,2),"))
      = top_commas 0 (L "a INT, b DECIMAL(10,2),")
        + (if PyStr.is_empty (L "a INT, b DECIMAL(10,2),")
              || ends_with_comma (L "a INT, b DECIMAL(10,2),")
           then 0 else 1)
      /\ Forall (fun seg => balanced seg = true)
                (split_columns (L "a INT, b DECIMAL(10,2),"))).
Proof.
  split; [reflexivity|].
  apply (split_columns_count_balanced (L "a INT, b DECIMAL(10,2),")).
  reflexivity.
Defined.

(** C3 as stated fails on a balanced text that ends in a comma at
    depth zero: one clause, not the two the count of commas plus one
    asks for. *)
Lemma split_columns_trailing_comma :
  balanced (L "a,") = true
  /\ top_commas 0 (L "a,") = 1
  /\ split_columns (L "a,") = [L "a"]
  /\ length (split_columns (L "a,")) <> top_commas 0 (L "a,") + 1.
Proof. repeat split; try reflexivity; vm_compute; discriminate. Qed.

(** C4, as the code has it: the clauses are the fragments between the
    commas at depth zero, each stripped of white space, the last
    fragment left out only when it has no character at all; so no
    clause has trailing white space, a clause can be empty, and the
    column loop passes over the empty ones. *)
Theorem split_columns_clauses (s : str) :
  split_columns s = map PyStr.strip (drop_empty_last (fragments s))
  /\ Forall (fun clause => trailing_space clause = false)
            (split_columns s)
  /\ Extractor.fallback_columns (split_columns s)
     = Extractor.fallback_columns
         (filter (fun clause => negb (PyStr.is_empty clause))
                 (split_columns s)).
Proof.
  split; [apply split_columns_fragments|]; split.
  - rewrite split_columns_fragments.
    apply Forall_forall; intros clause Hin.
    apply in_map_iff in Hin; destruct Hin as (f & <- & _).
    apply PyStrFacts.strip_no_trailing.
  - apply fold_columns_skip_empty.
Qed.

(** C4 as stated fails when white space follows the last comma at
    depth zero: the fragment is kept and its clause is empty. *)
Lemma split_columns_empty_clause :
  split_columns (L "a, ") = [L "a"; []]
  /\ In [] (split_columns (L "a, ")).
Proof. split; [reflexivity | right; left; reflexivity]. Qed.

End TokenizerFacts.

(** ** The column loop of the fallback pass *)

Module ClauseFacts.
Import PyStr Schema Extractor Props.

Lemma forallb_last_is (p : ascii -> bool) (s : str) :
  forallb p s = true -> s <> [] -> last_is p s = true.
Proof.
  induction s as [|c s IH]; intros F Hne; [congruence|].
  simpl in F; apply andb_true_iff in F; destruct F as [Fc Fs].
  destruct s as [|c' s]; [exact Fc|].
  change (last_is p (c :: c' :: s)) with (last_is p (c' :: s)).
  apply IH; [exact Fs | discriminate].
Qed.

Lemma split_from_nil (s : str) :
  forall cur, split_from cur s = [] ->
              cur = [] /\ forallb isspace s = true.
Proof.
  induction s as [|c s IH]; intros cur H; simpl in *.
  - destruct cur; [auto | discriminate].
  - destruct (isspace c).
    + destruct cur; [|discriminate].
      destruct (IH [] H) as [_ F]; auto.
    + destruct (IH _ H) as [E _]; destruct cur; discriminate.
Qed.

Lemma strip_split_nonempty (line : str) :
  strip line <> [] -> split (strip line) <> [].
Proof.
  intros Hne Hs.
  destruct (split_from_nil _ _ Hs) as [_ F].
  pose proof (forallb_last_is _ _ F Hne) as H.
  pose proof (PyStrFacts.strip_no_trailing line) as H'.
  unfold trailing_space in H'; congruence.
Qed.

Lemma strip_by_head (p : ascii -> bool) (s : str) :
  match strip_by p s with
  | c :: _ => p c = false
  | [] => True
  end.
Proof.
  unfold strip_by, lstrip_by.
  pose proof (drop_while_head_fact := PyStrFacts.drop_while_head p s).
  destruct (PyStrFacts.rstrip_by_prefix p (drop_while p s)) as (w & E & _).
  destruct (rstrip_by p (drop_while p s)) as [|c r]; [exact I|].
  rewrite E in drop_while_head_fact; exact drop_while_head_fact.
Qed.

Lemma split_from_spaces (w s : str) :
  forallb isspace w = true -> split_from [] (w ++ s) = split_from [] s.
Proof.
  induction w as [|c w IH]; intros F; [reflexivity|].
  simpl in F; apply andb_true_iff in F; destruct F as [Fc Fw].
  simpl; rewrite Fc; apply IH; exact Fw.
Qed.

Lemma split_from_first (s : str) :
  forall cur token rest,
    split_from cur s = token :: rest ->
    cur <> [] \/ (exists c s', s = c :: s' /\ isspace c = false) ->
    (forallb (fun c => negb (isspace c)) cur = true ->
     forallb (fun c => negb (isspace c)) token = true)
    /\ exists r, cur ++ s = token ++ r.
Proof.
  induction s as [|c s IH]; intros cur token rest H Hc; simpl in H.
  - destruct cur as [|x cur]; [discriminate|].
    injection H as <- _; split; [auto | exists []; reflexivity].
  - destruct (isspace c) eqn:Sp.
    + destruct cur as [|x cur].
      * destruct Hc as [Hc | (c0 & s0 & E & Hc)]; [congruence|].
        injection E as <- <-; congruence.
      * injection H as <- _; split; [auto | exists (c :: s); reflexivity].
    + destruct (IH _ _ _ H) as [Ha (r & Hr)].
      { left; destruct cur; discriminate. }
      split.
      * intros F; apply Ha; rewrite forallb_app, F; simpl; rewrite Sp.
        reflexivity.
      * exists r; rewrite <- Hr, <- app_assoc; reflexivity.
Qed.

Lemma token_within (token : str) :
  forall a b r,
    a ++ b = token ++ r ->
    forallb isspace b = true ->
    forallb (fun c => negb (isspace c)) token = true ->
    exists r', a = token ++ r'.
Proof.
  induction token as [|t token IH]; intros a b r E Fb Ft.
  - exists a; reflexivity.
  - simpl in Ft; apply andb_true_iff in Ft; destruct Ft as [Ft Ftok].
    destruct a as [|x a].
    + simpl in E; subst b; simpl in Fb.
      apply andb_true_iff in Fb; destruct Fb as [Fb _].
      rewrite Fb in Ft; discriminate.
    + injection E as -> E.
      destruct (IH _ _ _ E Fb Ftok) as (r' & ->).
      exists r'; reflexivity.
Qed.

Lemma startswith_app (p r : str) : startswith p (p ++ r) = true.
Proof.
  induction p as [|c p IH]; [reflexivity|].
  simpl; rewrite Ascii.eqb_refl; exact IH.
Qed.

(** The first token of a clause opens its stripped text. *)
Lemma first_token_prefix (clause token : str) (rest : list str) :
  split clause = token :: rest ->
  exists r, strip clause = token ++ r.
Proof.
  intros H.
  destruct (PyStrFacts.strip_by_decompose isspace clause)
    as (w1 & w2 & E & F1 & F2).
  fold (strip clause) in E.
  unfold split in H; rewrite E, (split_from_spaces _ _ F1) in H.
  pose proof (strip_by_head isspace clause) as Hd.
  fold (strip clause) in Hd.
  destruct (strip clause) as [|x line] eqn:El.
  - simpl in H.
    assert (N : split_from [] w2 = []).
    { rewrite <- (app_nil_r w2), (split_from_spaces _ _ F2); reflexivity. }
    congruence.
  - destruct (split_from_first _ _ _ _ H) as [Ha (r & Hr)].
    { right; exists x, (line ++ w2); auto. }
    simpl app in Hr at 1.
    apply (token_within token (x :: line) w2 r Hr F2 (Ha eq_refl)).
Qed.

(** The test of line 151, read off the code: a clause is passed over
    exactly when its stripped text is empty or, in upper case, starts
    with one of PRIMARY, FOREIGN, KEY, CONSTRAINT, INDEX; a clause whose
    first token is one of the words is among those, and a clause that is
    not passed over gives a descriptor. *)
Lemma column_of_clause_kept (clause : str) :
  (column_of_clause clause = None
   <-> strip clause = []
       \/ startswith_any table_words (upper (strip clause)) = true)
  /\ (first_token_is_table_word clause = true ->
      column_of_clause clause = None)
  /\ (column_of_clause clause <> None ->
      exists col_name rest,
        split (strip clause) = col_name :: rest
        /\ column_of_clause clause
           = Some (mk_column
                     (strip_chars quote_chars col_name)
                     (match rest with
                      | col_type :: _ => col_type
                      | [] => L "TEXT"
                      end)
                     (mentions_identity (upper (strip clause))))).
Proof.
  assert (Iff : column_of_clause clause = None
                <-> strip clause = []
                    \/ startswith_any table_words (upper (strip clause))
                       = true).
  { unfold column_of_clause.
    destruct (strip clause) as [|x line] eqn:El.
    - simpl; split; auto.
    - cbn [is_empty orb].
      destruct (startswith_any table_words (upper (x :: line))) eqn:Sw.
      + split; auto.
      + pose proof (strip_split_nonempty clause) as Hne.
        rewrite El in Hne.
        destruct (split (x :: line)) as [|col_name rest].
        * exfalso; apply Hne; [discriminate | reflexivity].
        * split; [discriminate | intros [H | H]; discriminate]. }
  split; [exact Iff|]; split.
  - unfold first_token_is_table_word; intros H.
    destruct (split clause) as [|token rest] eqn:Es; [discriminate|].
    apply Iff; right.
    destruct (first_token_prefix _ _ _ Es) as (r & Hr).
    apply existsb_exists in H; destruct H as (w & Hw & Ew).
    apply PyStrFacts.eqb_eq in Ew.
    apply existsb_exists; exists w; split; [exact Hw|].
    rewrite Hr; unfold upper; rewrite map_app; fold (upper token).
    rewrite Ew; apply startswith_app.
  - intros Hsome.
    unfold column_of_clause in *.
    destruct (is_empty (strip clause)
              || startswith_any table_words (upper (strip clause)));
      [congruence|].
    destruct (split (strip clause)) as [|col_name rest];
      [congruence|].
    exists col_name, rest; split; reflexivity.
Qed.

(** C1: the loop is there to pass over the table-level clauses, and C1
    has every clause kept whose first token is none of the five words.
    Line 151 compares a prefix of the clause instead of its first token.
    In the script CREATE TABLE t (id INT, keywords TEXT); the clause of
    the column keywords comes out of the split, its first token is none
    of the five words, and the clause is dropped: the fallback pass
    returns the descriptor of id alone.  A table whose only column is
    index_name gives no descriptor at all, which main reports as a table
    that is not in the script.  The structured pass, handed the same
    column by the parser, keeps it. *)
Theorem column_of_clause_keywords :
  Tokenizer.split_columns (L "id INT, keywords TEXT")
  = [L "id INT"; L "keywords TEXT"]
  /\ first_token_is_table_word (L "keywords TEXT") = false
  /\ column_of_clause (L "keywords TEXT") = None
  /\ fallback_columns (Tokenizer.split_columns (L "id INT, keywords TEXT"))
     = [mk_column (L "id") (L "INT") false]
  /\ parse_schema (fun _ _ => None)
       (L "CREATE TABLE t (id INT, keywords TEXT);") (L "t")
     = [mk_column (L "id") (L "INT") false]
  /\ first_token_is_table_word (L "index_name VARCHAR(10)") = false
  /\ parse_schema (fun _ _ => None)
       (L "CREATE TABLE t (index_name VARCHAR(10));") (L "t")
     = []
  /\ parse_schema
       (fun _ _ =>
          Some [Sqlglot.Create (L "table") (L "t")
                  [Sqlglot.ColumnDef
                     (Sqlglot.mk_column_def (L "keywords")
                        (Some (fun _ => L "TEXT")) [])]])
       (L "CREATE TABLE t (keywords TEXT);") (L "t")
     = [mk_column (L "keywords") (L "TEXT") false].
Proof. repeat split; vm_compute; reflexivity. Qed.

End ClauseFacts.

(** ** The extractor as a whole *)

Module ExtractorFacts.
Import Schema Sqlglot Extractor Props.

Lemma structured_pass_none parse (sql_content table_name : str)
      (ds : list dialect) :
  (forall d, In d ds ->
     match parse sql_content d with
     | None => True
     | Some expressions =>
         forall columns, scan d table_name expressions <> Returned columns
     end) ->
  structured_pass parse sql_content table_name ds = None.
Proof.
  induction ds as [|d ds IH]; intros H; [reflexivity|].
  simpl.
  pose proof (H d (or_introl eq_refl)) as Hd.
  destruct (parse sql_content d) as [expressions|].
  - destruct (scan d table_name expressions) as [columns| |] eqn:E.
    + exfalso; apply (Hd columns); reflexivity.
    + apply IH; intros d' Hin; apply H; right; exact Hin.
    + apply IH; intros d' Hin; apply H; right; exact Hin.
  - apply IH; intros d' Hin; apply H; right; exact Hin.
Qed.

(** C2: on the scenario's script, when no dialect of the structured
    pass returns, extraction for [users] gives the three descriptors
    id (INT, identity), email (VARCHAR(255)), created_at (DATETIME),
    in this order. *)
Theorem parse_schema_users parse :
  no_structured_match parse users_script (L "users") ->
  parse_schema parse users_script (L "users")
  = [ mk_column (L "id") (L "INT") true;
      mk_column (L "email") (L "VARCHAR(255)") false;
      mk_column (L "created_at") (L "DATETIME") false ].
Proof.
  intros H; unfold parse_schema.
  rewrite (structured_pass_none parse _ _ dialects H).
  vm_compute; reflexivity.
Qed.

Lemma parse_schema_users_witness :
  no_structured_match (fun _ _ => None) users_script (L "users")
  /\ parse_schema (fun _ _ => None) users_script (L "users")
     = [ mk_column (L "id") (L "INT") true;
         mk_column (L "email") (L "VARCHAR(255)") false;
         mk_column (L "created_at") (L "DATETIME") false ].
Proof.
  assert (H : no_structured_match (fun _ _ => None) users_script
                                  (L "users")).
  { intros d _; exact I. }
  split; [exact H | apply (parse_schema_users (fun _ _ => None) H)].
Defined.

(** C8: when no dialect of the structured pass returns (a dialect that
    raises is passed over) and the fallback pattern is found nowhere in
    the script, extraction returns the empty list. *)
Theorem parse_schema_not_found parse (sql_content table_name : str) :
  no_structured_match parse sql_content table_name ->
  Re.search (Re.table_pattern table_name) sql_content = None ->
  parse_schema parse sql_content table_name = [].
Proof.
  intros H Hs; unfold parse_schema.
  rewrite (structured_pass_none parse _ _ dialects H), Hs.
  reflexivity.
Qed.

Lemma parse_schema_not_found_witness :
  no_structured_match
    (fun _ d => match d with mysql => None | _ => Some [OtherExpression] end)
    (L "CREATE TABLE orders (id INT);") (L "users")
  /\ Re.search (Re.table_pattern (L "users"))
               (L "CREATE TABLE orders (id INT);") = None
  /\ parse_schema
       (fun _ d => match d with mysql => None | _ => Some [OtherExpression] end)
       (L "CREATE TABLE orders (id INT);") (L "users") = [].
Proof.
  assert (H : no_structured_match
                (fun _ d => match d with
                            | mysql => None
                            | _ => Some [OtherExpression]
                            end)
                (L "CREATE TABLE orders (id INT);") (L "users")).
  { intros d _; destruct d; [exact I | | |]; intros columns; discriminate. }
  split; [exact H|]; split; [reflexivity|].
  apply (parse_schema_not_found _ _ _ H); reflexivity.
Defined.

(** C10: the letters USE are looked for anywhere, also at the end of a
    longer word: the text [because foo] has no word USE, and the
    detector returns [foo] for it, whatever the engine. *)
Theorem extract_database_name_inside_word (engine : str) :
  has_use_word (L "because foo") = false
  /\ extract_database_name (L "because foo") engine = Some (L "foo").
Proof. split; reflexivity. Qed.

End ExtractorFacts.

(** ** The literal formatter *)

Module FormatterFacts.
Import Formatter Props.

Lemma replace1_double_quotes (s : str) :
  PyStr.replace1 "'" (L "''") s = double_quotes s.
Proof.
  unfold double_quotes.
  induction s as [|c s IH]; [reflexivity|].
  cbn [PyStr.replace1 flat_map]; rewrite IH.
  destruct (Ascii.eqb c "'") eqn:E; [|reflexivity].
  apply Ascii.eqb_eq in E; subst c; reflexivity.
Qed.

(** C5: whatever the engine, null is formatted as NULL, and a string
    as itself with every quote character doubled, between two quote
    characters; so is O'Brien. *)
Theorem format_null_and_string (engine : str) :
  format_sql_value VNone engine = L "NULL"
  /\ (forall s : str,
        format_sql_value (VStr s) engine
        = L "'" ++ double_quotes s ++ L "'")
  /\ format_sql_value (VStr (L "O'Brien")) engine = L "'O''Brien'".
Proof.
  split; [reflexivity|]; split; [|reflexivity].
  intros s; unfold format_sql_value.
  cbn [is_none isinstance_bool isinstance_int_float py_str].
  rewrite replace1_double_quotes; reflexivity.
Qed.

(** C6: a boolean is formatted by the boolean rule, as 1 or 0 for the
    engine mssql and as TRUE or FALSE for any other engine, although
    the numeric test holds of it too; the result is never the text the
    numeric rule would give. *)
Theorem format_boolean (b : bool) (engine : str) :
  isinstance_int_float (VBool b) = true
  /\ format_sql_value (VBool b) engine
     = (if PyStr.eqb engine (L "mssql")
        then (if b then L "1" else L "0")
        else (if b then L "TRUE" else L "FALSE"))
  /\ format_sql_value (VBool b) engine <> py_str (VBool b)
  /\ format_sql_value (VBool b) (L "mssql") = (if b then L "1" else L "0")
  /\ format_sql_value (VBool b) (L "postgresql")
     = (if b then L "TRUE" else L "FALSE").
Proof.
  split; [reflexivity|]; split; [reflexivity|]; split.
  - unfold format_sql_value; cbn [is_none isinstance_bool truthy].
    destruct (PyStr.eqb engine (L "mssql")); destruct b;
      intros F; vm_compute in F; discriminate F.
  - split; destruct b; reflexivity.
Qed.

End FormatterFacts.

(** ** The classifier *)

Module ClassifierFacts.
Import Classifier.

Ltac split_on_rule :=
  match goal with
  | |- context [has ?w ?n] =>
      let E := fresh "E" in
      destruct (has w n) eqn:E; cbn [orb andb negb];
      try (split; [discriminate | intros (_ & _ & F); discriminate F])
  end.

(** C7: the generator of integers between 1 and 10 is chosen exactly
    when the name, in lower case as the classifier reads it, starts
    with [id_], is not [id_usuario], and meets none of the name rules
    before; it is never chosen for the names [id] and [id_usuario],
    whatever the declared type. *)
Theorem id_rule_exact (col_name col_type : str) :
  (map_column_to_mimesis col_name col_type = integer_number 1 10
   <-> PyStr.startswith (L "id_") (PyStr.lower col_name) = true
       /\ PyStr.lower col_name <> L "id_usuario"
       /\ earlier_name_rule (PyStr.lower col_name) = false)
  /\ map_column_to_mimesis (L "id") col_type <> integer_number 1 10
  /\ map_column_to_mimesis (L "id_usuario") col_type
     <> integer_number 1 10.
Proof.
  assert (Iff : forall col_name,
             map_column_to_mimesis col_name col_type = integer_number 1 10
             <-> PyStr.startswith (L "id_") (PyStr.lower col_name) = true
                 /\ PyStr.lower col_name <> L "id_usuario"
                 /\ earlier_name_rule (PyStr.lower col_name) = false).
  { clear col_name; intros col_name.
    unfold map_column_to_mimesis, earlier_name_rule.
    set (name := PyStr.lower col_name).
    set (t := PyStr.lower col_type).
    do 20 split_on_rule.
    destruct (PyStr.startswith (L "id_") name) eqn:Sw; cbn [andb].
    - destruct (PyStr.eqb name (L "id_usuario")) eqn:Eu; cbn [andb negb].
      + apply PyStrFacts.eqb_eq in Eu.
        assert (R : forall g, g <> integer_number 1 10 ->
                      g = integer_number 1 10 <->
                      true = true /\ name <> L "id_usuario"
                      /\ false = false).
        { intros g Hg; split; [congruence | intros (_ & F & _); congruence]. }
        repeat split_on_rule; apply R; discriminate.
      + destruct (PyStr.eqb name (L "id")) eqn:Ei; cbn [negb].
        { apply PyStrFacts.eqb_eq in Ei; rewrite Ei in Sw; discriminate. }
        split; [intros _|reflexivity].
        repeat split; intros F.
        apply PyStrFacts.eqb_eq in F; congruence.
    - repeat split_on_rule;
        (split; [discriminate | intros (F & _); discriminate F]). }
  split; [apply Iff|]; split; intros F; apply Iff in F.
  - destruct F as (F & _); vm_compute in F; discriminate F.
  - destruct F as (_ & F & _); apply F; reflexivity.
Qed.

End ClassifierFacts.

(** ** The matcher *)

Module ReFacts.
Import Re Props.

Section Continuations.
Context {A : Type}.

Lemma star_greedy_sound (p : ascii -> bool) (s : str)
      (k : str -> option A) (a : A) :
  star_greedy p s k = Some a ->
  exists s1 s2, s = s1 ++ s2 /\ forallb p s1 = true /\ k s2 = Some a.
Proof.
  induction s as [|x s IH]; simpl; intros H.
  - exists [], []; auto.
  - destruct (p x) eqn:P.
    + destruct (star_greedy p s k) as [a'|] eqn:G.
      * injection H as ->.
        destruct (IH eq_refl) as (s1 & s2 & -> & F & K).
        exists (x :: s1), s2; simpl; rewrite P, F; auto.
      * exists [], (x :: s); auto.
    + exists [], (x :: s); auto.
Qed.

Lemma star_greedy_complete (p : ascii -> bool) (s1 s2 : str)
      (k : str -> option A) (a : A) :
  forallb p s1 = true -> k s2 = Some a ->
  exists a', star_greedy p (s1 ++ s2) k = Some a'.
Proof.
  induction s1 as [|x s1 IH]; simpl; intros F K.
  - destruct s2 as [|y s2]; simpl; [eauto|].
    destruct (p y); [|eauto].
    destruct (star_greedy p s2 k); eauto.
  - apply andb_true_iff in F; destruct F as [Px F].
    rewrite Px.
    destruct (IH F K) as (a' & ->); eauto.
Qed.

Lemma star_lazy_sound (p : ascii -> bool) (s : str)
      (k : str -> option A) (a : A) :
  star_lazy p s k = Some a ->
  exists s1 s2, s = s1 ++ s2 /\ forallb p s1 = true /\ k s2 = Some a.
Proof.
  induction s as [|x s IH]; simpl; intros H.
  - destruct (k []) eqn:K; [|discriminate].
    exists [], []; rewrite K; auto.
  - destruct (k (x :: s)) eqn:K.
    + exists [], (x :: s); rewrite K; auto.
    + destruct (p x) eqn:P; [|discriminate].
      destruct (IH H) as (s1 & s2 & -> & F & K').
      exists (x :: s1), s2; simpl; rewrite P, F; auto.
Qed.

Lemma star_lazy_complete (p : ascii -> bool) (s1 s2 : str)
      (k : str -> option A) (a : A) :
  forallb p s1 = true -> k s2 = Some a ->
  exists a', star_lazy p (s1 ++ s2) k = Some a'.
Proof.
  induction s1 as [|x s1 IH]; simpl; intros F K.
  - destruct s2 as [|y s2]; simpl; rewrite K; eauto.
  - apply andb_true_iff in F; destruct F as [Px F].
    destruct (k (x :: s1 ++ s2)); [eauto|].
    rewrite Px; apply IH; assumption.
Qed.

(** Whatever the matcher returns comes from a split of the text into
    a string of the pattern and a rest the continuation accepts. *)
Lemma m_sound (r : regex) :
  forall g s (k : option str -> str -> option A) a,
    m r g s k = Some a ->
    exists s1 s2 g', s = s1 ++ s2 /\ lang r s1 /\ k g' s2 = Some a.
Proof.
  induction r as [|c|p|r1 IH1 r2 IH2|r1 IH1 r2 IH2|r1 IH1|p|p|p|r1 IH1];
    intros g s k a H; simpl in H.
  - exists [], s, g; simpl; auto.
  - destruct s as [|x s]; [discriminate|].
    destruct (chr_eq c x) eqn:E; [|discriminate].
    exists [x], s, g; simpl; eauto.
  - destruct s as [|x s]; [discriminate|].
    destruct (p x) eqn:E; [|discriminate].
    exists [x], s, g; simpl; eauto.
  - destruct (IH1 _ _ _ _ H) as (u & rest & g1 & -> & L1 & H2).
    destruct (IH2 _ _ _ _ H2) as (v & s2 & g2 & -> & L2 & K).
    exists (u ++ v), s2, g2; rewrite app_assoc; simpl; eauto 7.
  - destruct (m r1 g s k) as [a'|] eqn:M1.
    + injection H as ->.
      destruct (IH1 _ _ _ _ M1) as (s1 & s2 & g' & E & L1 & K).
      exists s1, s2, g'; simpl; auto.
    + destruct (IH2 _ _ _ _ H) as (s1 & s2 & g' & E & L2 & K).
      exists s1, s2, g'; simpl; auto.
  - destruct (m r1 g s k) as [a'|] eqn:M1.
    + injection H as ->.
      destruct (IH1 _ _ _ _ M1) as (s1 & s2 & g' & E & L1 & K).
      exists s1, s2, g'; simpl; auto.
    + exists [], s, g; simpl; auto.
  - destruct (star_greedy_sound _ _ _ _ H) as (s1 & s2 & E & F & K).
    exists s1, s2, g; simpl; auto.
  - destruct s as [|x s]; [discriminate|].
    destruct (p x) eqn:P; [|discriminate].
    destruct (star_greedy_sound _ _ _ _ H) as (s1 & s2 & -> & F & K).
    exists (x :: s1), s2, g; simpl; rewrite P, F.
    repeat split; [discriminate | exact K].
  - destruct (star_lazy_sound _ _ _ _ H) as (s1 & s2 & E & F & K).
    exists s1, s2, g; simpl; auto.
  - destruct (IH1 _ _ _ _ H) as (s1 & s2 & g' & E & L1 & K).
    exists s1, s2, (Some (firstn (length s - length s2) s)); simpl; auto.
Qed.

(** A split the continuation accepts whatever the group makes the
    matcher return. *)
Lemma m_complete (r : regex) :
  forall s1, lang r s1 ->
  forall g s2 (k : option str -> str -> option A),
    (forall g', exists a, k g' s2 = Some a) ->
    exists a, m r g (s1 ++ s2) k = Some a.
Proof.
  induction r as [|c|p|r1 IH1 r2 IH2|r1 IH1 r2 IH2|r1 IH1|p|p|p|r1 IH1];
    intros s1 Hl g s2 k K; simpl in Hl; simpl m.
  - subst s1; apply K.
  - destruct Hl as (x & -> & E); simpl; rewrite E; apply K.
  - destruct Hl as (x & -> & E); simpl; rewrite E; apply K.
  - destruct Hl as (u & v & -> & L1 & L2).
    rewrite <- app_assoc.
    apply IH1; [exact L1|].
    intros g'; apply IH2; assumption.
  - destruct Hl as [L1 | L2].
    + destruct (IH1 _ L1 g s2 k K) as (a & ->); eauto.
    + destruct (m r1 g (s1 ++ s2) k); [eauto|].
      apply IH2; assumption.
  - destruct Hl as [-> | L1].
    + simpl; destruct (m r1 g s2 k); [eauto | apply K].
    + destruct (IH1 _ L1 g s2 k K) as (a & ->); eauto.
  - destruct (K g) as (a & Ka).
    apply (star_greedy_complete p s1 s2 (k g) a Hl Ka).
  - destruct Hl as [Hne F].
    destruct s1 as [|x s1]; [congruence|].
    simpl in F; apply andb_true_iff in F; destruct F as [Px F].
    simpl; rewrite Px.
    destruct (K g) as (a & Ka).
    apply (star_greedy_complete p s1 s2 (k g) a F Ka).
  - destruct (K g) as (a & Ka).
    apply (star_lazy_complete p s1 s2 (k g) a Hl Ka).
  - apply IH1; [exact Hl|].
    intros g'; apply K.
Qed.
(** A pattern that goes through its group leaves it set. *)
Lemma m_group (r : regex) :
  forall g s (k : option str -> str -> option A) a,
    m r g s k = Some a ->
    exists g' s',
      k g' s' = Some a
      /\ (sets_group r = true \/ g <> None -> g' <> None).
Proof.
  induction r as [|c|p|r1 IH1 r2 IH2|r1 IH1 r2 IH2|r1 IH1|p|p|p|r1 IH1];
    intros g s k a H; simpl in H; cbn [sets_group].
  - exists g, s; split; [exact H | intros [F | F]; [discriminate | exact F]].
  - destruct s as [|x s]; [discriminate|].
    destruct (chr_eq c x); [|discriminate].
    exists g, s; split; [exact H | intros [F | F]; [discriminate | exact F]].
  - destruct s as [|x s]; [discriminate|].
    destruct (p x); [|discriminate].
    exists g, s; split; [exact H | intros [F | F]; [discriminate | exact F]].
  - destruct (IH1 _ _ _ _ H) as (g1 & s1 & H2 & G1).
    destruct (IH2 _ _ _ _ H2) as (g2 & s2 & K & G2).
    exists g2, s2; split; [exact K|].
    intros [F | F].
    + apply orb_true_iff in F; destruct F as [F | F]; auto.
    + auto.
  - destruct (m r1 g s k) as [a'|] eqn:M1.
    + injection H as ->.
      destruct (IH1 _ _ _ _ M1) as (g' & s' & K & G).
      exists g', s'; split; [exact K|].
      intros [F | F]; [apply andb_true_iff in F; destruct F|]; auto.
    + destruct (IH2 _ _ _ _ H) as (g' & s' & K & G).
      exists g', s'; split; [exact K|].
      intros [F | F]; [apply andb_true_iff in F; destruct F|]; auto.
  - destruct (m r1 g s k) as [a'|] eqn:M1.
    + injection H as ->.
      destruct (IH1 _ _ _ _ M1) as (g' & s' & K & G).
      exists g', s'; split; [exact K|].
      intros [F | F]; [discriminate | auto].
    + exists g, s; split; [exact H|].
      intros [F | F]; [discriminate | exact F].
  - destruct (star_greedy_sound _ _ _ _ H) as (s1 & s2 & _ & _ & K).
    exists g, s2; split; [exact K|].
    intros [F | F]; [discriminate | exact F].
  - destruct s as [|x s]; [discriminate|].
    destruct (p x); [|discriminate].
    destruct (star_greedy_sound _ _ _ _ H) as (s1 & s2 & _ & _ & K).
    exists g, s2; split; [exact K|].
    intros [F | F]; [discriminate | exact F].
  - destruct (star_lazy_sound _ _ _ _ H) as (s1 & s2 & _ & _ & K).
    exists g, s2; split; [exact K|].
    intros [F | F]; [discriminate | exact F].
  - destruct (IH1 _ _ _ _ H) as (g' & s' & K & _).
    eexists _, s'; split; [exact K | discriminate].
Qed.
End Continuations.

(** *** Characters under [re.IGNORECASE] *)

Lemma chr_eq_refl (c : ascii) : chr_eq c c = true.
Proof. apply Ascii.eqb_refl. Qed.

Lemma chr_eq_sym (c x : ascii) : chr_eq c x = chr_eq x c.
Proof. apply Ascii.eqb_sym. Qed.

Lemma chr_eq_inert (c x : ascii) :
  inert c = true -> chr_eq c x = true -> x = c.
Proof.
  destruct c as [[] [] [] [] [] [] [] []]; intros I;
    vm_compute in I; try discriminate I; clear I;
    destruct x as [[] [] [] [] [] [] [] []]; intros H;
    vm_compute in H; try discriminate H; reflexivity.
Qed.

Lemma chr_eq_paren (x : ascii) : chr_eq "(" x = true -> x = "("%char.
Proof.
  destruct x as [[] [] [] [] [] [] [] []]; intros H;
    vm_compute in H; try discriminate H; reflexivity.
Qed.

Lemma chr_eq_close (x : ascii) : chr_eq ")" x = Ascii.eqb x ")".
Proof. destruct x as [[] [] [] [] [] [] [] []]; reflexivity. Qed.

Lemma chr_eq_semicolon (x : ascii) : chr_eq ";" x = Ascii.eqb x ";".
Proof. destruct x as [[] [] [] [] [] [] [] []]; reflexivity. Qed.

Lemma inert_chr_eq (c x : ascii) :
  chr_eq c x = true -> inert x = inert c.
Proof.
  intros H.
  destruct (inert c) eqn:Ic.
  - rewrite (chr_eq_inert c x Ic H); exact Ic.
  - destruct (inert x) eqn:Ix; [|reflexivity].
    rewrite chr_eq_sym in H.
    rewrite (chr_eq_inert x c Ix H) in Ic; congruence.
Qed.

Lemma isspace_inert (w : str) :
  forallb PyStr.isspace w = true -> forallb inert w = true.
Proof.
  induction w as [|c w IH]; simpl; [reflexivity|].
  intros F; apply andb_true_iff in F; destruct F as [Fc Fw].
  unfold inert at 1; rewrite Fc, (IH Fw); reflexivity.
Qed.

Lemma optional_quote_inert (qs q : str) :
  qs = open_quotes \/ qs = close_quotes ->
  optional_quote qs q -> forallb inert q = true.
Proof.
  intros Hqs [-> | (x & Hin & ->)]; [reflexivity|].
  destruct Hqs as [-> | ->]; simpl in Hin;
    repeat (destruct Hin as [<- | Hin]; [reflexivity|]);
    contradiction.
Qed.

(** *** Literal words and the optional quotes *)

Lemma lang_lits (w s : str) :
  lang (lits w) s -> Forall2 (fun c x => chr_eq c x = true) w s.
Proof.
  revert s; induction w as [|c w IH]; intros s H.
  - simpl in H; subst s; constructor.
  - destruct H as (s1 & s2 & -> & (x & -> & E) & H2).
    constructor; [exact E | apply IH; exact H2].
Qed.

Lemma lits_lang (w s : str) :
  Forall2 (fun c x => chr_eq c x = true) w s -> lang (lits w) s.
Proof.
  induction 1 as [|c x w s E _ IH]; [reflexivity|].
  exists [x], s; repeat split; [exists x; auto | exact IH].
Qed.

Lemma lits_self (w : str) : lang (lits w) w.
Proof.
  apply lits_lang; induction w; constructor; [apply chr_eq_refl | auto].
Qed.

Lemma lang_alts (qs q : str) :
  lang (alts qs) q ->
  exists c x, In c qs /\ q = [x] /\ chr_eq c x = true.
Proof.
  induction qs as [|c qs IH]; simpl; intros H.
  - destruct H as (x & _ & F); discriminate.
  - destruct H as [(x & -> & E) | H].
    + exists c, x; auto.
    + destruct (IH H) as (c' & x & Hin & E & Hc).
      exists c', x; auto.
Qed.

Lemma alts_lang (qs : str) (x : ascii) :
  In x qs -> lang (alts qs) [x].
Proof.
  induction qs as [|c qs IH]; simpl; intros H; [contradiction|].
  destruct H as [-> | H].
  - left; exists x; split; [reflexivity | apply chr_eq_refl].
  - right; apply IH; exact H.
Qed.

Lemma lang_opt_quote (qs q : str) :
  qs = open_quotes \/ qs = close_quotes ->
  lang (Opt (alts qs)) q -> forallb inert q = true.
Proof.
  intros Hqs [-> | H]; [reflexivity|].
  destruct (lang_alts _ _ H) as (c & x & Hin & -> & E).
  assert (Ic : inert c = true).
  { assert (F : forallb inert [c] = true).
    { apply (optional_quote_inert qs [c] Hqs); right; exists c; auto. }
    simpl in F; rewrite andb_true_r in F; exact F. }
  simpl; rewrite (inert_chr_eq c x E), Ic; reflexivity.
Qed.

Lemma opt_quote_lang (qs q : str) :
  optional_quote qs q -> lang (Opt (alts qs)) q.
Proof.
  intros [-> | (x & Hin & ->)]; [left; reflexivity|].
  right; apply alts_lang; exact Hin.
Qed.

(** *** Where the first character that is not inert stands *)

Lemma first_not_inert (l1 : str) :
  forall l2 x y r1 r2,
    l1 ++ x :: r1 = l2 ++ y :: r2 ->
    forallb inert l1 = true -> forallb inert l2 = true ->
    inert x = false -> inert y = false ->
    l1 = l2 /\ x = y /\ r1 = r2.
Proof.
  induction l1 as [|a l1 IH]; intros [|b l2] x y r1 r2 E F1 F2 Ix Iy;
    simpl in *.
  - injection E as -> ->; auto.
  - injection E as -> _.
    apply andb_true_iff in F2; destruct F2 as [Fb _]; congruence.
  - injection E as -> _.
    apply andb_true_iff in F1; destruct F1 as [Fa _]; congruence.
  - injection E as -> E.
    apply andb_true_iff in F1; destruct F1 as [_ F1].
    apply andb_true_iff in F2; destruct F2 as [_ F2].
    destruct (IH _ _ _ _ _ E F1 F2 Ix Iy) as (-> & -> & ->); auto.
Qed.

Lemma split_not_inert (n : str) :
  forallb inert n = true
  \/ exists n1 x n2,
      n = n1 ++ x :: n2 /\ forallb inert n1 = true /\ inert x = false.
Proof.
  induction n as [|c n IH]; [left; reflexivity|].
  destruct (inert c) eqn:Ic.
  - destruct IH as [F | (n1 & x & n2 & -> & F & Ix)].
    + left; simpl; rewrite Ic, F; reflexivity.
    + right; exists (c :: n1), x, n2; simpl; rewrite Ic, F; auto.
  - right; exists [], c, n; auto.
Qed.

Lemma same_inert (n N : str) :
  Forall2 (fun c x => chr_eq c x = true) n N ->
  forallb inert N = forallb inert n.
Proof.
  induction 1 as [|c x n N E _ IH]; [reflexivity|].
  simpl; rewrite (inert_chr_eq c x E), IH; reflexivity.
Qed.

Lemma app_same_length {T : Type} (a : list T) :
  forall c b d, a ++ b = c ++ d -> length a = length c ->
                a = c /\ b = d.
Proof.
  induction a as [|x a IH]; intros [|y c] b d E Hl; simpl in *;
    try discriminate; [auto|].
  injection E as -> E; injection Hl as Hl.
  destruct (IH _ _ _ E Hl) as [-> ->]; auto.
Qed.

(** Between inert characters, a text that matches the name letter by
    letter stands at one place only. *)
Lemma name_place (A N B s2 A0 n B0 Y : str) :
  A ++ N ++ B ++ "("%char :: s2 = A0 ++ n ++ B0 ++ "("%char :: Y ->
  forallb inert A = true -> forallb inert B = true ->
  forallb inert A0 = true -> forallb inert B0 = true ->
  Forall2 (fun c x => chr_eq c x = true) n N ->
  s2 = Y.
Proof.
  intros E FA FB FA0 FB0 HN.
  assert (Ip : inert "(" = false) by reflexivity.
  destruct (split_not_inert n) as [Fn | (n1 & x & n2 & En & F1 & Ix)].
  - assert (FN : forallb inert N = true)
      by (rewrite (same_inert n N HN); exact Fn).
    rewrite !app_assoc in E.
    apply first_not_inert in E; auto.
    + destruct E as (_ & _ & E); exact E.
    + rewrite !forallb_app, FA, FN, FB; reflexivity.
    + rewrite !forallb_app, FA0, Fn, FB0; reflexivity.
  - subst n.
    apply Forall2_app_inv_l in HN.
    destruct HN as (N1 & N2' & H1 & H2 & ->).
    inversion H2 as [|x0 x' n0 N2 Ex H3]; subst.
    assert (F1' : forallb inert N1 = true)
      by (rewrite (same_inert n1 N1 H1); exact F1).
    assert (Ix' : inert x' = false)
      by (rewrite (inert_chr_eq x x' Ex); exact Ix).
    assert (E1 : (A ++ N1) ++ x' :: (N2 ++ B ++ "("%char :: s2)
                 = (A0 ++ n1) ++ x :: (n2 ++ B0 ++ "("%char :: Y)).
    { rewrite <- !app_assoc in E; simpl in E.
      rewrite <- !app_assoc; exact E. }
    apply first_not_inert in E1; auto.
    + destruct E1 as (_ & _ & E1).
      apply app_same_length in E1;
        [|symmetry; apply (Forall2_length H3)].
      destruct E1 as [_ E1].
      apply first_not_inert in E1; auto.
      destruct E1 as (_ & _ & E1); exact E1.
    + rewrite forallb_app, FA, F1'; reflexivity.
    + rewrite forallb_app, FA0, F1; reflexivity.
Qed.

(** *** The two halves of the pattern *)

Lemma closing_match (g : option str) (s : str) :
  m (seq [Chr ")"; Chr ";"]) g s (fun g' _ => Some g')
  = if closes s then Some g else None.
Proof.
  destruct s as [|x [|y s]]; cbn [seq m closes].
  - reflexivity.
  - rewrite chr_eq_close; destruct (Ascii.eqb x ")"); reflexivity.
  - rewrite chr_eq_close, chr_eq_semicolon.
    destruct (Ascii.eqb x ")"); [|reflexivity].
    destruct (Ascii.eqb y ";"); reflexivity.
Qed.

Lemma firstn_prefix (pre s : str) :
  firstn (length (pre ++ s) - length s) (pre ++ s) = pre.
Proof.
  rewrite length_app.
  replace (length pre + length s - length s) with (length pre + 0) by lia.
  rewrite firstn_app_2; simpl; apply app_nil_r.
Qed.

Lemma lazy_body (s : str) :
  forall s0 pre,
    s0 = pre ++ s ->
    star_lazy any_char s
      (fun s' =>
         m (seq [Chr ")"; Chr ";"])
           (Some (firstn (length s0 - length s') s0)) s'
           (fun g' _ => Some g'))
    = option_map (fun t => Some (pre ++ t)) (before_close s).
Proof.
  induction s as [|c s IH]; intros s0 pre E.
  - cbn [star_lazy before_close]; rewrite closing_match; reflexivity.
  - cbn [star_lazy before_close].
    rewrite closing_match.
    destruct (closes (c :: s)).
    + simpl; rewrite E, firstn_prefix, app_nil_r; reflexivity.
    + cbn [any_char].
      rewrite (IH s0 (pre ++ [c])) by (rewrite <- app_assoc; exact E).
      destruct (before_close s) as [t|]; simpl; [|reflexivity].
      rewrite <- app_assoc; reflexivity.
Qed.

(** What [(.*?)\);] makes of a text: group 1 is the text before the
    first [);]. *)
Lemma table_body_match (g : option str) (s : str) :
  m table_body g s (fun g' _ => Some g')
  = option_map Some (before_close s).
Proof.
  unfold table_body.
  change (m (seq [Grp (StarLazy any_char); Chr ")"; Chr ";"]) g s
            (fun g' _ => Some g'))
    with (star_lazy any_char s
            (fun s' =>
               m (seq [Chr ")"; Chr ";"])
                 (Some (firstn (length s - length s') s)) s'
                 (fun g' _ => Some g'))).
  rewrite (lazy_body s s [] eq_refl).
  destruct (before_close s); reflexivity.
Qed.

Lemma before_close_found (body : str) :
  exists col_content, before_close (body ++ L ");") = Some col_content.
Proof.
  induction body as [|c body (t & IH)].
  - exists []; reflexivity.
  - change ((c :: body) ++ L ");") with (c :: (body ++ L ");")).
    cbn [before_close].
    destruct (closes (c :: body ++ L ");")); [eauto|].
    rewrite IH; simpl; eauto.
Qed.

Lemma region_head (table_name o c : str) :
  optional_quote open_quotes o -> optional_quote close_quotes c ->
  lang (table_head table_name)
       (L "CREATE TABLE " ++ o ++ table_name ++ c ++ L " (").
Proof.
  intros Ho Hc; unfold table_head, escape; cbn [seq lang].
  exists (L "CREATE"), (L " TABLE " ++ o ++ table_name ++ c ++ L " (").
  split; [reflexivity|]; split; [apply lits_self|].
  exists (L " "), (L "TABLE " ++ o ++ table_name ++ c ++ L " (").
  split; [reflexivity|]; split; [split; [discriminate | reflexivity]|].
  exists (L "TABLE"), (L " " ++ o ++ table_name ++ c ++ L " (").
  split; [reflexivity|]; split; [apply lits_self|].
  exists (L " "), (o ++ table_name ++ c ++ L " (").
  split; [reflexivity|]; split; [split; [discriminate | reflexivity]|].
  exists o, (table_name ++ c ++ L " (").
  split; [reflexivity|]; split; [apply opt_quote_lang; exact Ho|].
  exists table_name, (c ++ L " (").
  split; [reflexivity|]; split; [apply lits_self|].
  exists c, (L " (").
  split; [reflexivity|]; split; [apply opt_quote_lang; exact Hc|].
  exists (L " "), (L "(").
  split; [reflexivity|]; split; [reflexivity|].
  exists (L "("), [].
  split; [reflexivity|]; split; [|reflexivity].
  exists "("%char; split; reflexivity.
Qed.

(** However the head of the pattern is matched at the start of a
    region, what is left is the body and the closing [);]. *)
Lemma region_rest (table_name o c body s1 s2 : str) :
  optional_quote open_quotes o -> optional_quote close_quotes c ->
  lang (table_head table_name) s1 ->
  s1 ++ s2 = region o table_name c body ->
  s2 = body ++ L ");".
Proof.
  intros Ho Hc H E.
  unfold table_head, escape in H; cbn [seq lang] in H.
  destruct H as (C & r1 & -> & HC & w1 & r2 & -> & [Hn1 Hw1]
                 & T & r3 & -> & HT & w2 & r4 & -> & [Hn2 Hw2]
                 & q1 & r5 & -> & Hq1 & N & r6 & -> & HN
                 & q2 & r7 & -> & Hq2 & w3 & r8 & -> & Hw3
                 & p & r9 & -> & (x & -> & Hx) & ->).
  apply chr_eq_paren in Hx; subst x.
  apply lang_lits in HC, HT, HN.
  unfold region in E.
  rewrite <- !app_assoc in E.
  change (L "CREATE TABLE " ++ o ++ table_name ++ c ++ L " (" ++ body ++ L ");")
    with (L "CREATE"
          ++ " "%char
             :: (L "TABLE"
                 ++ " "%char
                    :: o ++ table_name ++ c ++ L " (" ++ body ++ L ");"))
    in E.
  apply app_same_length in E;
    [|symmetry; apply (Forall2_length HC)].
  destruct E as [_ E].
  destruct w1 as [|a [|b w1]]; [congruence| |].
  2:{ simpl in E; injection E as _ Eb _; subst b.
      simpl in Hw1; rewrite andb_false_r in Hw1; discriminate. }
  simpl in E; injection E as _ E.
  match type of E with
  | ?l = _ =>
      change (l = L "TABLE"
                  ++ " "%char
                     :: o ++ table_name ++ c ++ L " (" ++ body ++ L ");")
        in E
  end.
  apply app_same_length in E;
    [|symmetry; apply (Forall2_length HT)].
  destruct E as [_ E].
  assert (E' : (w2 ++ q1) ++ N ++ (q2 ++ w3) ++ "("%char :: s2
               = (L " " ++ o) ++ table_name ++ (c ++ L " ")
                 ++ "("%char :: (body ++ L ");")).
  { rewrite <- !app_assoc; simpl; simpl in E; exact E. }
  apply name_place in E'; auto.
  - rewrite forallb_app, (isspace_inert w2 Hw2).
    apply (lang_opt_quote open_quotes q1 (or_introl eq_refl) Hq1).
  - rewrite forallb_app, (isspace_inert w3 Hw3), andb_true_r.
    apply (lang_opt_quote close_quotes q2 (or_intror eq_refl) Hq2).
  - rewrite forallb_app; simpl.
    apply (optional_quote_inert open_quotes o (or_introl eq_refl) Ho).
  - rewrite forallb_app, andb_true_r.
    apply (optional_quote_inert close_quotes c (or_intror eq_refl) Hc).
Qed.

Lemma search_at_start (r : regex) (s : str) (mo : match_obj) :
  match_at r s = Some mo -> search r s = Some mo.
Proof. intros H; destruct s; cbn [search]; rewrite H; reflexivity. Qed.

(** Group 1 is set in every match of the program's patterns, so
    [group1] never falls back on its default. *)
Lemma search_group (r : regex) (s : str) (mo : match_obj) :
  sets_group r = true -> search r s = Some mo -> mo <> None.
Proof.
  intros G; induction s as [|x s IH]; cbn [search]; intros H.
  - destruct (match_at r []) as [mo'|] eqn:M; [|discriminate].
    injection H as ->.
    destruct (m_group r _ _ _ _ M) as (g' & s' & K & Hg).
    injection K as <-; auto.
  - destruct (match_at r (x :: s)) as [mo'|] eqn:M; [|auto].
    injection H as ->.
    destruct (m_group r _ _ _ _ M) as (g' & s' & K & Hg).
    injection K as <-; auto.
Qed.

Lemma program_patterns_set_group (table_name : str) :
  sets_group (table_pattern table_name) = true
  /\ sets_group use_pattern = true
  /\ sets_group create_pattern = true.
Proof.
  split; [|split; reflexivity].
  unfold table_pattern; cbn [sets_group].
  apply orb_true_iff; right; reflexivity.
Qed.

Lemma search_region (table_name o c body : str) :
  optional_quote open_quotes o -> optional_quote close_quotes c ->
  search (table_pattern table_name) (region o table_name c body)
  = option_map Some (before_close (body ++ L ");")).
Proof.
  intros Ho Hc.
  set (k := fun (g : option str) (s : str) =>
              m table_body g s (fun g' _ => Some g')).
  assert (M : match_at (table_pattern table_name)
                       (region o table_name c body)
              = option_map Some (before_close (body ++ L ");"))).
  { change (match_at (table_pattern table_name)
                     (region o table_name c body))
      with (m (table_head table_name) None
              (region o table_name c body) k).
    destruct (before_close_found body) as (t & Ht).
    destruct (m_complete (table_head table_name) _
                (region_head table_name o c Ho Hc) None
                (body ++ L ");") k) as (a & Ha).
    { intros g'; unfold k; rewrite table_body_match, Ht; simpl; eauto. }
    assert (Er : (L "CREATE TABLE " ++ o ++ table_name ++ c ++ L " (")
                 ++ body ++ L ");"
                 = region o table_name c body).
    { unfold region; rewrite <- !app_assoc; reflexivity. }
    rewrite Er in Ha; rewrite Ha.
    destruct (m_sound _ _ _ _ _ Ha) as (s1 & s2 & g' & E & Hl & Hk).
    rewrite (region_rest table_name o c body s1 s2 Ho Hc Hl (eq_sym E))
      in Hk.
    unfold k in Hk; rewrite table_body_match in Hk.
    congruence. }
  destruct (before_close_found body) as (t & Ht).
  rewrite Ht in *; apply search_at_start; exact M.
Qed.

End ReFacts.

(** ** Quoting of the table name in the fallback pass *)

Module QuotingFacts.
Import Re Props Extractor.

(** C9: the quote before the table name and the quote after it are
    each optional and are matched apart from one another: whatever the
    name and the body, a region with any opening quote or none and any
    closing quote or none is found like the region without quotes, with
    the same text in group 1 (the body up to its first [);]), and the
    fallback pass gives the same descriptors for both. *)
Theorem table_pattern_quotes_apart (table_name body o c : str) :
  optional_quote open_quotes o ->
  optional_quote close_quotes c ->
  (exists col_content,
      before_close (body ++ L ");") = Some col_content
      /\ search (table_pattern table_name) (region o table_name c body)
         = Some (Some col_content))
  /\ search (table_pattern table_name) (region o table_name c body)
     = search (table_pattern table_name) (region [] table_name [] body)
  /\ (forall parse,
        no_structured_match parse (region o table_name c body) table_name ->
        no_structured_match parse (region [] table_name [] body)
                            table_name ->
        parse_schema parse (region o table_name c body) table_name
        = parse_schema parse (region [] table_name [] body) table_name).
Proof.
  intros Ho Hc.
  assert (Hn : optional_quote open_quotes []) by (left; reflexivity).
  assert (Hn' : optional_quote close_quotes []) by (left; reflexivity).
  pose proof (ReFacts.search_region table_name o c body Ho Hc) as S1.
  pose proof (ReFacts.search_region table_name [] [] body Hn Hn') as S2.
  split; [|split].
  - destruct (ReFacts.before_close_found body) as (t & Ht).
    exists t; rewrite S1, Ht; auto.
  - rewrite S1, S2; reflexivity.
  - intros parse N1 N2; unfold parse_schema.
    rewrite (ExtractorFacts.structured_pass_none parse _ _ dialects N1).
    rewrite (ExtractorFacts.structured_pass_none parse _ _ dialects N2).
    rewrite S1, S2; reflexivity.
Qed.

Lemma table_pattern_quotes_apart_witness :
  optional_quote open_quotes (L "[")
  /\ optional_quote close_quotes [dquote]
  /\ search (table_pattern (L "users"))
            (region (L "[") (L "users") [dquote] (L "id INT, n DECIMAL(10,2)"))
     = search (table_pattern (L "users"))
              (region [] (L "users") [] (L "id INT, n DECIMAL(10,2)")).
Proof.
  assert (Ho : optional_quote open_quotes (L "[")).
  { right; exists "["%char; split; [simpl; auto | reflexivity]. }
  assert (Hc : optional_quote close_quotes [dquote]).
  { right; exists dquote; split; [simpl; auto | reflexivity]. }
  split; [exact Ho|]; split; [exact Hc|].
  exact (proj1 (proj2 (table_pattern_quotes_apart
                         (L "users") (L "id INT, n DECIMAL(10,2)")
                         (L "[") [dquote] Ho Hc))).
Defined.

End QuotingFacts.

(** ** The program on small inputs *)

Module Runs.
Import Schema Props.

Example split_keeps_type_arguments :
  Tokenizer.split_columns (L "id INT IDENTITY(1,1),  price DECIMAL(10,2) ,n TEXT")
  = [L "id INT IDENTITY(1,1)"; L "price DECIMAL(10,2)"; L "n TEXT"].
Proof. reflexivity. Qed.

Example split_of_nothing : Tokenizer.split_columns [] = [].
Proof. reflexivity. Qed.

Example split_inner_empty :
  Tokenizer.split_columns (L "a,,b") = [L "a"; []; L "b"].
Proof. reflexivity. Qed.

Example clause_primary_key :
  Extractor.column_of_clause (L "PRIMARY KEY (id)") = None
  /\ first_token_is_table_word (L "primary key (id)") = true
  /\ Extractor.column_of_clause (L "primary key (id)") = None.
Proof. repeat split; reflexivity. Qed.

Example clause_index_name :
  first_token_is_table_word (L "index_name VARCHAR(10)") = false
  /\ Extractor.column_of_clause (L "index_name VARCHAR(10)") = None.
Proof. split; reflexivity. Qed.

Example clause_quoted_name :
  Extractor.column_of_clause (L "[total] DECIMAL(10,2) NOT NULL")
  = Some (mk_column (L "total") (L "DECIMAL(10,2)") false).
Proof. reflexivity. Qed.

Example clause_without_type :
  Extractor.column_of_clause (L "note")
  = Some (mk_column (L "note") (L "TEXT") false).
Proof. reflexivity. Qed.

Example search_mismatched_quotes :
  Re.search (Re.table_pattern (L "users"))
            (L "-- x" ++ L "create  table [USERS' (a int, b text);")
  = Some (Some (L "a int, b text")).
Proof. reflexivity. Qed.

Example search_other_table :
  Re.search (Re.table_pattern (L "user"))
            (L "CREATE TABLE users (a int);") = None.
Proof. reflexivity. Qed.

Example detect_use_statement (engine : str) :
  Extractor.extract_database_name (L "USE [shop];") engine
  = Some (L "shop").
Proof. reflexivity. Qed.

Example detect_create_database (engine : str) :
  Extractor.extract_database_name (L "create database shop;") engine
  = Some (L "shop").
Proof. reflexivity. Qed.

Example detect_nothing (engine : str) :
  Extractor.extract_database_name (L "SELECT 1;") engine = None.
Proof. reflexivity. Qed.

Example classify_upper_case_id :
  Classifier.map_column_to_mimesis (L "ID_Role") (L "INT")
  = Classifier.integer_number 1 10.
Proof. reflexivity. Qed.

Example classify_id :
  Classifier.map_column_to_mimesis (L "id") (L "INT")
  = Classifier.integer_number 1 100000.
Proof. reflexivity. Qed.

Example format_integer :
  Formatter.format_sql_value (Formatter.VInt (-120)) (L "mysql") = L "-120".
Proof. reflexivity. Qed.

(** A structured pass that returns wins over the fallback pass, also
    with no column. *)
Example structured_pass_wins :
  Extractor.parse_schema
    (fun _ _ => Some [Sqlglot.Create (L "table") (L "Users") []])
    users_script (L "users") = [].
Proof. reflexivity. Qed.

End Runs.

(** ** More on the comma-aware split *)

Module TokenizerMore.
Import Tokenizer Props Notions.

Lemma depth_of_cons (d : Z) (c : ascii) (s : str) :
  depth_of d (c :: s) = depth_of (depth_after d c) s.
Proof. reflexivity. Qed.

Lemma walk_depth_of (s : str) :
  forall d e, walk d s = Some e -> depth_of d s = e.
Proof.
  induction s as [|c s IH]; intros d e H; cbn [walk] in H.
  - unfold depth_of; simpl; congruence.
  - destruct (0 <=? depth_after d c)%Z; [|discriminate].
    rewrite depth_of_cons; apply IH; exact H.
Qed.

Lemma no_top_comma_cons (d : Z) (c : ascii) (s : str) :
  top_commas d (c :: s) = 0 ->
  Ascii.eqb c "," && (d =? 0)%Z = false
  /\ top_commas (depth_after d c) s = 0.
Proof.
  simpl; destruct (Ascii.eqb c "," && (d =? 0)%Z); [discriminate | auto].
Qed.

(** A text without a separating comma is read into the running
    fragment as it stands. *)
Lemma fragments_from_plain (a : str) :
  forall d cur rest,
    top_commas d a = 0 ->
    fragments_from d cur (a ++ rest)
    = fragments_from (depth_of d a) (cur ++ a) rest.
Proof.
  induction a as [|c a IH]; intros d cur rest H.
  - simpl; rewrite app_nil_r; reflexivity.
  - destruct (no_top_comma_cons d c a H) as [Sep H'].
    change ((c :: a) ++ rest) with (c :: (a ++ rest)).
    cbn [fragments_from]; rewrite Sep, IH by exact H'.
    rewrite depth_of_cons, <- app_assoc; reflexivity.
Qed.

Lemma strip_leading_spaces (w s : str) :
  forallb PyStr.isspace w = true -> PyStr.strip (w ++ s) = PyStr.strip s.
Proof.
  intros F; unfold PyStr.strip, PyStr.strip_by, PyStr.lstrip_by; f_equal.
  induction w as [|c w IH]; [reflexivity|].
  simpl in F; apply andb_true_iff in F; destruct F as [Fc Fw].
  simpl; rewrite Fc; apply IH; exact Fw.
Qed.

Lemma split_one_clause (s : str) :
  top_commas 0 s = 0 -> s <> [] -> split_columns s = [PyStr.strip s].
Proof.
  intros H Hne.
  rewrite TokenizerFacts.split_columns_fragments; unfold fragments.
  rewrite <- (app_nil_r s) at 1.
  rewrite (fragments_from_plain s 0 [] [] H).
  destruct s; [congruence | reflexivity].
Qed.

Lemma split_first_clause (a b : str) :
  top_commas 0 a = 0 -> depth_of 0 a = 0%Z ->
  split_columns (a ++ ","%char :: b) = PyStr.strip a :: split_columns b.
Proof.
  intros H D.
  rewrite !TokenizerFacts.split_columns_fragments; unfold fragments.
  rewrite (fragments_from_plain a 0 [] _ H), D.
  cbn [fragments_from app].
  change (Ascii.eqb "," "," && (0 =? 0)%Z) with true; cbv iota.
  rewrite TokenizerFacts.drop_empty_last_cons
    by apply TokenizerFacts.fragments_from_nonempty.
  reflexivity.
Qed.

(** X1: a text in which every comma stands inside parentheses is one
    clause: the split returns the stripped text alone. *)
Theorem nested_commas_do_not_split (s : str) :
  top_commas 0 s = 0 -> s <> [] ->
  split_columns s = [PyStr.strip s].
Proof. apply split_one_clause. Qed.

Lemma nested_commas_do_not_split_witness :
  top_commas 0 (L " price DECIMAL(10,2) DEFAULT f(1,(2,3)) ") = 0
  /\ L " price DECIMAL(10,2) DEFAULT f(1,(2,3)) " <> []
  /\ split_columns (L " price DECIMAL(10,2) DEFAULT f(1,(2,3)) ")
     = [PyStr.strip (L " price DECIMAL(10,2) DEFAULT f(1,(2,3)) ")].
Proof.
  split; [reflexivity|]; split; [discriminate|].
  apply nested_commas_do_not_split; [reflexivity | discriminate].
Defined.

(** X2: the split works clause by clause: when the text before a comma
    has no comma outside parentheses and leaves the depth counter at
    zero, it gives the first clause, and the rest of the text is split
    as if it stood alone. *)
Theorem split_at_first_top_comma (a b : str) :
  top_commas 0 a = 0 -> depth_of 0 a = 0%Z ->
  split_columns (a ++ ","%char :: b) = PyStr.strip a :: split_columns b.
Proof. apply split_first_clause. Qed.

Lemma split_at_first_top_comma_witness :
  top_commas 0 (L "id INT IDENTITY(1,1) ") = 0
  /\ depth_of 0 (L "id INT IDENTITY(1,1) ") = 0%Z
  /\ split_columns (L "id INT IDENTITY(1,1) " ++ ","%char :: L " a INT, b INT")
     = PyStr.strip (L "id INT IDENTITY(1,1) ")
       :: split_columns (L " a INT, b INT").
Proof.
  split; [reflexivity|]; split; [reflexivity|].
  apply split_at_first_top_comma; reflexivity.
Defined.

Lemma below_zero_no_comma (s : str) :
  forall d, (d < 0)%Z ->
            forallb (fun c => negb (Ascii.eqb c "(")) s = true ->
            top_commas d s = 0.
Proof.
  induction s as [|c s IH]; intros d Hd F; [reflexivity|].
  simpl in F; apply andb_true_iff in F; destruct F as [Fc Fs].
  simpl.
  replace (d =? 0)%Z with false by (symmetry; apply Z.eqb_neq; lia).
  rewrite andb_false_r; simpl.
  apply IH; [|exact Fs].
  unfold depth_after.
  destruct (Ascii.eqb c "("); [discriminate|].
  destruct (Ascii.eqb c ")"); lia.
Qed.

(** X3: the depth counter is not kept from going below zero: after a
    closing parenthesis that nothing opened, and with no opening
    parenthesis after it, no comma separates any more, and the whole
    text is one clause. *)
Theorem stray_close_stops_splitting (s : str) :
  forallb (fun c => negb (Ascii.eqb c "(")) s = true ->
  split_columns (")"%char :: s) = [PyStr.strip (")"%char :: s)].
Proof.
  intros F; apply split_one_clause; [|discriminate].
  simpl; apply below_zero_no_comma; [reflexivity | exact F].
Qed.

Lemma stray_close_stops_splitting_witness :
  forallb (fun c => negb (Ascii.eqb c "(")) (L " a INT, b INT, c INT") = true
  /\ split_columns (")"%char :: L " a INT, b INT, c INT")
     = [PyStr.strip (")"%char :: L " a INT, b INT, c INT")].
Proof.
  split; [reflexivity|].
  apply stray_close_stops_splitting; reflexivity.
Defined.

Lemma join_two (sep x y : str) (l : list str) :
  Main.join sep (x :: y :: l) = x ++ sep ++ Main.join sep (y :: l).
Proof. reflexivity. Qed.

Lemma split_joined (l : list str) :
  forall c cur,
    Forall plain_clause (c :: l) ->
    forallb PyStr.isspace cur = true ->
    map PyStr.strip
        (drop_empty_last
           (fragments_from 0 cur (Main.join (L ", ") (c :: l))))
    = c :: l.
Proof.
  induction l as [|c2 l IH]; intros c cur Hp Hcur;
    inversion Hp as [|? ? (Hne & Hs & Hb & Ht) Hl]; subst.
  - cbn [Main.join].
    rewrite <- (app_nil_r c) at 1.
    rewrite (fragments_from_plain c 0 cur [] Ht).
    cbn [fragments_from drop_empty_last].
    destruct (cur ++ c) eqn:E.
    + apply app_eq_nil in E; destruct E; congruence.
    + rewrite <- E; cbn [map].
      rewrite (strip_leading_spaces cur c Hcur), Hs; reflexivity.
  - rewrite join_two.
    change (c ++ L ", " ++ Main.join (L ", ") (c2 :: l))
      with (c ++ ","%char :: " "%char :: Main.join (L ", ") (c2 :: l)).
    rewrite (fragments_from_plain c 0 cur _ Ht).
    assert (D : depth_of 0 c = 0%Z).
    { unfold balanced in Hb.
      destruct (walk 0 c) as [e|] eqn:W; [|discriminate].
      apply Z.eqb_eq in Hb; subst e.
      apply (walk_depth_of c 0 0 W). }
    rewrite D.
    cbn [fragments_from].
    change (Ascii.eqb "," "," && (0 =? 0)%Z) with true; cbv iota.
    change (Ascii.eqb " " "," && (0 =? 0)%Z) with false; cbv iota.
    rewrite TokenizerFacts.drop_empty_last_cons
      by apply TokenizerFacts.fragments_from_nonempty.
    cbn [map].
    rewrite (strip_leading_spaces cur c Hcur), Hs.
    f_equal.
    apply (IH c2 (L " ")); [exact Hl | reflexivity].
Qed.

(** X4: a column list written out is read back: clauses that are not
    empty, carry no white space around them, have balanced parentheses
    and no comma outside them, joined by a comma and a space, are split
    into the same clauses. *)
Theorem split_join_round_trip (clauses : list str) :
  Forall plain_clause clauses ->
  split_columns (Main.join (L ", ") clauses) = clauses.
Proof.
  intros H; destruct clauses as [|c l]; [reflexivity|].
  rewrite TokenizerFacts.split_columns_fragments.
  apply (split_joined l c [] H); reflexivity.
Qed.

Lemma split_join_round_trip_witness :
  Forall plain_clause [L "id INT IDENTITY(1,1)"; L "price DECIMAL(10,2)"]
  /\ split_columns
       (Main.join (L ", ")
                  [L "id INT IDENTITY(1,1)"; L "price DECIMAL(10,2)"])
     = [L "id INT IDENTITY(1,1)"; L "price DECIMAL(10,2)"].
Proof.
  assert (H : Forall plain_clause
                     [L "id INT IDENTITY(1,1)"; L "price DECIMAL(10,2)"]).
  { repeat constructor; discriminate. }
  split; [exact H | apply (split_join_round_trip _ H)].
Defined.

End TokenizerMore.

(** ** More on the column loop of the fallback pass *)

Module ClauseMore.
Import PyStr Schema Extractor Props Notions.

Lemma fold_columns_from (clauses : list str) :
  forall columns,
    fold_left
      (fun columns line =>
         match column_of_clause line with
         | Some c => columns ++ [c]
         | None => columns
         end) clauses columns
    = columns ++ flat_map columns_of_clause clauses.
Proof.
  induction clauses as [|line clauses IH]; intros columns; simpl.
  - rewrite app_nil_r; reflexivity.
  - rewrite IH; unfold columns_of_clause.
    destruct (column_of_clause line); [|reflexivity].
    rewrite <- app_assoc; reflexivity.
Qed.

Lemma length_columns_of (clauses : list str) :
  length (flat_map columns_of_clause clauses) <= length clauses.
Proof.
  induction clauses as [|line clauses IH]; simpl; [lia|].
  rewrite length_app; unfold columns_of_clause at 1.
  destruct (column_of_clause line); simpl; lia.
Qed.

(** X5: the column loop keeps the order of the clauses: the
    descriptors are those of the kept clauses, one after the other, so
    the descriptors of two lists of clauses put end to end are those of
    the first followed by those of the second, and there are never more
    descriptors than clauses. *)
Theorem fallback_columns_in_order (clauses more : list str) :
  fallback_columns clauses = flat_map columns_of_clause clauses
  /\ fallback_columns (clauses ++ more)
     = fallback_columns clauses ++ fallback_columns more
  /\ length (fallback_columns clauses) <= length clauses.
Proof.
  unfold fallback_columns; rewrite !fold_columns_from; simpl.
  split; [reflexivity|]; split;
    [apply flat_map_app | apply length_columns_of].
Qed.

Lemma split_from_tokens (s : str) :
  forall cur,
    forallb (fun c => negb (isspace c)) cur = true ->
    Forall (fun t => t <> []
                     /\ forallb (fun c => negb (isspace c)) t = true)
           (split_from cur s).
Proof.
  induction s as [|c s IH]; intros cur F; simpl.
  - destruct cur; constructor; [split; [discriminate | exact F] | constructor].
  - destruct (isspace c) eqn:Sp.
    + destruct cur as [|x cur]; [apply IH; reflexivity|].
      constructor; [split; [discriminate | exact F] | apply IH; reflexivity].
    + apply IH; rewrite forallb_app, F; simpl; rewrite Sp; reflexivity.
Qed.

Lemma strip_chars_keeps (p : ascii -> bool) (chars s : str) :
  forallb p s = true -> forallb p (strip_chars chars s) = true.
Proof.
  intros F; unfold strip_chars.
  destruct (PyStrFacts.strip_by_decompose (fun c => mem c chars) s)
    as (w1 & w2 & E & _).
  rewrite E, !forallb_app in F.
  apply andb_true_iff in F; destruct F as [_ F].
  apply andb_true_iff in F; destruct F as [F _]; exact F.
Qed.

(** X6: what a descriptor of the fallback pass is made of: its name has
    no white space and neither begins nor ends with one of the quote
    characters (it can be empty, for a token of quote characters only);
    its type is not empty and has no white space. *)
Theorem fallback_descriptor_shape (clause : str) (c : column) :
  column_of_clause clause = Some c ->
  forallb (fun x => negb (isspace x)) (name c) = true
  /\ stops (fun x => mem x quote_chars) (name c) = true
  /\ last_is (fun x => mem x quote_chars) (name c) = false
  /\ type c <> []
  /\ forallb (fun x => negb (isspace x)) (type c) = true.
Proof.
  unfold column_of_clause.
  destruct (is_empty (strip clause)
            || startswith_any table_words (upper (strip clause)));
    [discriminate|].
  pose proof (split_from_tokens (strip clause) [] eq_refl) as T.
  fold (split (strip clause)) in T.
  destruct (split (strip clause)) as [|col_name rest]; [discriminate|].
  intros H; injection H as <-; cbn [name type].
  inversion T as [|? ? [_ Fn] Tr]; subst.
  split; [apply strip_chars_keeps; exact Fn|].
  split.
  { pose proof (ClauseFacts.strip_by_head
                  (fun c => mem c quote_chars) col_name) as Hd.
    unfold strip_chars, stops.
    destruct (strip_by (fun c => mem c quote_chars) col_name);
      [reflexivity | rewrite Hd; reflexivity]. }
  split; [apply PyStrFacts.rstrip_by_no_trailing|].
  destruct rest as [|col_type rest]; [split; [discriminate | reflexivity]|].
  inversion Tr as [|? ? [Hne Ft] _]; subst; auto.
Qed.

Lemma fallback_descriptor_shape_witness :
  column_of_clause (L " [total]  DECIMAL(10,2) NOT NULL")
  = Some (mk_column (L "total") (L "DECIMAL(10,2)") false)
  /\ (forallb (fun x => negb (isspace x)) (L "total") = true
      /\ stops (fun x => mem x quote_chars) (L "total") = true
      /\ last_is (fun x => mem x quote_chars) (L "total") = false
      /\ L "DECIMAL(10,2)" <> []
      /\ forallb (fun x => negb (isspace x)) (L "DECIMAL(10,2)") = true).
Proof.
  split; [reflexivity|].
  apply (fallback_descriptor_shape
           (L " [total]  DECIMAL(10,2) NOT NULL")
           (mk_column (L "total") (L "DECIMAL(10,2)") false)).
  reflexivity.
Defined.

Lemma startswith_elim (p : str) :
  forall s, startswith p s = true -> exists b, s = p ++ b.
Proof.
  induction p as [|x p IH]; intros s H; [exists s; reflexivity|].
  destruct s as [|y s]; [discriminate|].
  simpl in H; apply andb_true_iff in H; destruct H as [E H].
  apply Ascii.eqb_eq in E; subst y.
  destruct (IH s H) as (b & ->); exists b; reflexivity.
Qed.

Lemma contains_elim (w : str) :
  forall s, contains w s = true -> exists a b, s = a ++ w ++ b.
Proof.
  induction s as [|x s IH]; intros H; simpl in H.
  - rewrite orb_false_r in H.
    destruct (startswith_elim _ _ H) as (b & E).
    exists [], b; exact E.
  - apply orb_true_iff in H; destruct H as [H | H].
    + destruct (startswith_elim _ _ H) as (b & E).
      exists [], b; exact E.
    + destruct (IH H) as (a & b & ->).
      exists (x :: a), b; reflexivity.
Qed.

Lemma contains_intro (w b : str) :
  forall a, contains w (a ++ w ++ b) = true.
Proof.
  induction a as [|x a IH].
  - simpl app.
    destruct (w ++ b) eqn:E; simpl; rewrite <- E;
      rewrite ClauseFacts.startswith_app; reflexivity.
  - simpl; rewrite IH; apply orb_true_r.
Qed.

Lemma contains_inside (w a s b : str) :
  contains w s = true -> contains w (a ++ s ++ b) = true.
Proof.
  intros H; destruct (contains_elim w s H) as (a' & b' & ->).
  replace (a ++ (a' ++ w ++ b') ++ b) with ((a ++ a') ++ w ++ (b' ++ b))
    by (rewrite <- !app_assoc; reflexivity).
  apply contains_intro.
Qed.

(** X7: the identity test of the fallback pass reads the whole clause,
    the column name included: a kept column whose name contains
    IDENTITY, AUTO_INCREMENT or SERIAL, in any case, is marked as an
    identity column, whatever else the clause says. *)
Theorem identity_word_in_name (clause : str) (c : column) :
  column_of_clause clause = Some c ->
  mentions_identity (upper (name c)) = true ->
  is_identity c = true.
Proof.
  unfold column_of_clause.
  destruct (strip clause) as [|x line] eqn:El; [discriminate|].
  destruct (is_empty (x :: line)
            || startswith_any table_words (upper (x :: line)));
    [discriminate|].
  pose proof (ClauseFacts.strip_by_head isspace clause) as Hd.
  fold (strip clause) in Hd; rewrite El in Hd.
  destruct (split (x :: line)) as [|col_name rest] eqn:Es; [discriminate|].
  intros H; injection H as <-; cbn [name is_identity].
  destruct (ClauseFacts.split_from_first _ _ _ _ Es) as [_ (r & Hr)].
  { right; exists x, line; auto. }
  simpl app in Hr at 1.
  destruct (PyStrFacts.strip_by_decompose
              (fun c => mem c quote_chars) col_name)
    as (w1 & w2 & E & _).
  fold (strip_chars quote_chars col_name) in E.
  unfold mentions_identity; intros M.
  apply existsb_exists in M; destruct M as (w & Hw & Hc).
  apply existsb_exists; exists w; split; [exact Hw|].
  change (upper_char x :: upper line) with (upper (x :: line)).
  rewrite Hr, E; unfold upper; rewrite <- !app_assoc, !map_app.
  apply contains_inside; exact Hc.
Qed.

Lemma identity_word_in_name_witness :
  column_of_clause (L "serial_number VARCHAR(20) NOT NULL")
  = Some (mk_column (L "serial_number") (L "VARCHAR(20)") true)
  /\ mentions_identity (upper (L "serial_number")) = true
  /\ is_identity (mk_column (L "serial_number") (L "VARCHAR(20)") true)
     = true.
Proof.
  split; [reflexivity|]; split; [reflexivity|].
  apply (identity_word_in_name (L "serial_number VARCHAR(20) NOT NULL"));
    reflexivity.
Defined.

End ClauseMore.

(** ** More on the fallback pattern *)

Module FallbackMore.
Import Re Props Notions Extractor ReFacts.

Lemma chr_eq_trans (a b c : ascii) :
  chr_eq a b = true -> chr_eq b c = true -> chr_eq a c = true.
Proof.
  unfold chr_eq; intros H1 H2.
  apply Ascii.eqb_eq in H1, H2; apply Ascii.eqb_eq; congruence.
Qed.

Lemma same_letters_link (n N N' : str) :
  same_letters n N -> same_letters n N' -> same_letters N N'.
Proof.
  intros H; revert N'; induction H as [|c x n N E _ IH]; intros N' H';
    inversion H' as [|? x' ? N2 E' H2]; subst; constructor.
  - rewrite chr_eq_sym in E; apply (chr_eq_trans x c x' E E').
  - apply IH; exact H2.
Qed.

Lemma same_letters_head (c : ascii) (w s : str) :
  same_letters (c :: w) s ->
  exists x s', s = x :: s' /\ chr_eq c x = true /\ same_letters w s'.
Proof. intros H; inversion H; subst; eauto. Qed.

Lemma spaces_lang (w : str) :
  w <> [] -> forallb PyStr.isspace w = true -> lang (Plus PyStr.isspace) w.
Proof. intros; split; assumption. Qed.

Lemma free_region_head (table_name kw1 w1 kw2 w2 o found c w3 : str) :
  same_letters (L "CREATE") kw1 ->
  w1 <> [] -> forallb PyStr.isspace w1 = true ->
  same_letters (L "TABLE") kw2 ->
  w2 <> [] -> forallb PyStr.isspace w2 = true ->
  optional_quote open_quotes o ->
  same_letters table_name found ->
  optional_quote close_quotes c ->
  forallb PyStr.isspace w3 = true ->
  lang (table_head table_name)
       (kw1 ++ w1 ++ kw2 ++ w2 ++ o ++ found ++ c ++ w3 ++ L "(").
Proof.
  intros K1 N1 F1 K2 N2 F2 Ho Hn Hc F3.
  unfold table_head, escape; cbn [seq lang].
  exists kw1, (w1 ++ kw2 ++ w2 ++ o ++ found ++ c ++ w3 ++ L "(").
  split; [reflexivity|]; split; [apply lits_lang; exact K1|].
  exists w1, (kw2 ++ w2 ++ o ++ found ++ c ++ w3 ++ L "(").
  split; [reflexivity|]; split; [split; assumption|].
  exists kw2, (w2 ++ o ++ found ++ c ++ w3 ++ L "(").
  split; [reflexivity|]; split; [apply lits_lang; exact K2|].
  exists w2, (o ++ found ++ c ++ w3 ++ L "(").
  split; [reflexivity|]; split; [split; assumption|].
  exists o, (found ++ c ++ w3 ++ L "(").
  split; [reflexivity|]; split; [apply opt_quote_lang; exact Ho|].
  exists found, (c ++ w3 ++ L "(").
  split; [reflexivity|]; split; [apply lits_lang; exact Hn|].
  exists c, (w3 ++ L "(").
  split; [reflexivity|]; split; [apply opt_quote_lang; exact Hc|].
  exists w3, (L "(").
  split; [reflexivity|]; split; [exact F3|].
  exists (L "("), [].
  split; [reflexivity|]; split; [|reflexivity].
  exists "("%char; split; reflexivity.
Qed.

Lemma free_region_rest
      (table_name kw1 w1 kw2 w2 o found c w3 body s1 s2 : str) :
  same_letters (L "CREATE") kw1 ->
  forallb PyStr.isspace w1 = true ->
  same_letters (L "TABLE") kw2 ->
  forallb PyStr.isspace w2 = true ->
  optional_quote open_quotes o ->
  same_letters table_name found ->
  optional_quote close_quotes c ->
  forallb PyStr.isspace w3 = true ->
  lang (table_head table_name) s1 ->
  s1 ++ s2 = free_region kw1 w1 kw2 w2 o found c w3 body ->
  s2 = body ++ L ");".
Proof.
  intros K1 F1 K2 F2 Ho Hn Hc F3 H E.
  unfold table_head, escape in H; cbn [seq lang] in H.
  destruct H as (C & r1 & -> & HC & v1 & r2 & -> & [_ Hv1]
                 & T & r3 & -> & HT & v2 & r4 & -> & [_ Hv2]
                 & q1 & r5 & -> & Hq1 & N & r6 & -> & HN
                 & q2 & r7 & -> & Hq2 & v3 & r8 & -> & Hv3
                 & p & r9 & -> & (x & -> & Hx) & ->).
  apply chr_eq_paren in Hx; subst x.
  apply lang_lits in HC, HT, HN.
  unfold free_region in E.
  rewrite <- !app_assoc in E.
  apply app_same_length in E.
  2:{ rewrite <- (Forall2_length HC), <- (Forall2_length K1).
      reflexivity. }
  destruct E as [_ E].
  destruct (same_letters_head _ _ _ HT) as (t & T' & -> & Et & HT').
  destruct (same_letters_head _ _ _ K2) as (k & kw2' & -> & Ek & K2').
  assert (It : inert t = false)
    by (rewrite (inert_chr_eq _ _ Et); reflexivity).
  assert (Ik : inert k = false)
    by (rewrite (inert_chr_eq _ _ Ek); reflexivity).
  simpl in E.
  apply first_not_inert in E; auto using isspace_inert.
  destruct E as (_ & _ & E).
  apply app_same_length in E.
  2:{ rewrite <- (Forall2_length HT'), <- (Forall2_length K2').
      reflexivity. }
  destruct E as [_ E].
  assert (E' : (v2 ++ q1) ++ N ++ (q2 ++ v3) ++ "("%char :: s2
               = (w2 ++ o) ++ found ++ (c ++ w3)
                 ++ "("%char :: (body ++ L ");")).
  { rewrite <- !app_assoc; exact E. }
  apply name_place in E'; auto.
  - rewrite forallb_app, (isspace_inert v2 Hv2).
    apply (lang_opt_quote open_quotes q1 (or_introl eq_refl) Hq1).
  - rewrite forallb_app, (isspace_inert v3 Hv3), andb_true_r.
    apply (lang_opt_quote close_quotes q2 (or_intror eq_refl) Hq2).
  - rewrite forallb_app, (isspace_inert w2 F2).
    apply (optional_quote_inert open_quotes o (or_introl eq_refl) Ho).
  - rewrite forallb_app, (isspace_inert w3 F3), andb_true_r.
    apply (optional_quote_inert close_quotes c (or_intror eq_refl) Hc).
  - apply (same_letters_link table_name found N Hn HN).
Qed.

Lemma match_at_other_letter (table_name : str) (x : ascii) (s : str) :
  chr_eq "C" x = false ->
  match_at (table_pattern table_name) (x :: s) = None.
Proof.
  intros H.
  change (match_at (table_pattern table_name) (x :: s))
    with (if chr_eq "C" x
          then m (seq (lits (L "REATE") :: tl
                         [ lits (L "CREATE"); Plus PyStr.isspace;
                           lits (L "TABLE"); Plus PyStr.isspace;
                           Opt (alts open_quotes); escape table_name;
                           Opt (alts close_quotes); Star PyStr.isspace;
                           Chr "(" ]))
                 None s
                 (fun g' s' => m table_body g' s' (fun g _ => Some g))
          else None).
  rewrite H; reflexivity.
Qed.

Lemma search_skips (table_name pre s : str) :
  without_letter "C" pre = true ->
  search (table_pattern table_name) (pre ++ s)
  = search (table_pattern table_name) s.
Proof.
  induction pre as [|x pre IH]; intros F; [reflexivity|].
  simpl in F; apply andb_true_iff in F; destruct F as [Fx F].
  apply negb_true_iff in Fx.
  change ((x :: pre) ++ s) with (x :: (pre ++ s)).
  cbn [search]; rewrite (match_at_other_letter _ _ _ Fx).
  apply IH; exact F.
Qed.

(** X8: the fallback pattern finds a region written with the keywords
    and the table name in any case, with any white space (line breaks
    too) after the keywords and before the parenthesis, with or without
    quotes, after a text that has no letter C: group 1 is the body up
    to its first closing parenthesis followed by a semicolon. *)
Theorem fallback_region_found
        (table_name pre kw1 w1 kw2 w2 o found c w3 body : str) :
  without_letter "C" pre = true ->
  same_letters (L "CREATE") kw1 ->
  w1 <> [] -> forallb PyStr.isspace w1 = true ->
  same_letters (L "TABLE") kw2 ->
  w2 <> [] -> forallb PyStr.isspace w2 = true ->
  optional_quote open_quotes o ->
  same_letters table_name found ->
  optional_quote close_quotes c ->
  forallb PyStr.isspace w3 = true ->
  search (table_pattern table_name)
         (pre ++ free_region kw1 w1 kw2 w2 o found c w3 body)
  = option_map Some (before_close (body ++ L ");")).
Proof.
  intros Fp K1 N1 F1 K2 N2 F2 Ho Hn Hc F3.
  rewrite (search_skips _ _ _ Fp).
  set (k := fun (g : option str) (s : str) =>
              m table_body g s (fun g' _ => Some g')).
  destruct (before_close_found body) as (t & Ht).
  rewrite Ht; apply search_at_start.
  change (match_at (table_pattern table_name)
                   (free_region kw1 w1 kw2 w2 o found c w3 body))
    with (m (table_head table_name) None
            (free_region kw1 w1 kw2 w2 o found c w3 body) k).
  destruct (m_complete (table_head table_name) _
              (free_region_head table_name kw1 w1 kw2 w2 o found c w3
                 K1 N1 F1 K2 N2 F2 Ho Hn Hc F3)
              None (body ++ L ");") k) as (a & Ha).
  { intros g'; unfold k; rewrite table_body_match, Ht; simpl; eauto. }
  assert (Er : (kw1 ++ w1 ++ kw2 ++ w2 ++ o ++ found ++ c ++ w3 ++ L "(")
               ++ body ++ L ");"
               = free_region kw1 w1 kw2 w2 o found c w3 body).
  { unfold free_region; rewrite <- !app_assoc; reflexivity. }
  rewrite Er in Ha; rewrite Ha.
  destruct (m_sound _ _ _ _ _ Ha) as (s1 & s2 & g' & E & Hl & Hk).
  rewrite (free_region_rest table_name kw1 w1 kw2 w2 o found c w3 body
             s1 s2 K1 F1 K2 F2 Ho Hn Hc F3 Hl (eq_sym E)) in Hk.
  unfold k in Hk; rewrite table_body_match, Ht in Hk.
  symmetry; exact Hk.
Qed.

Lemma fallback_region_found_witness :
  without_letter "C" (L "-- sales" ++ [Main.nl]) = true
  /\ same_letters (L "CREATE") (L "Create")
  /\ L "  " <> []
  /\ forallb PyStr.isspace (L "  ") = true
  /\ same_letters (L "TABLE") (L "table")
  /\ [Main.nl] <> []
  /\ forallb PyStr.isspace [Main.nl] = true
  /\ optional_quote open_quotes (L "`")
  /\ same_letters (L "Orders") (L "ORDERS")
  /\ optional_quote close_quotes (L "`")
  /\ forallb PyStr.isspace [Main.nl] = true
  /\ search (table_pattern (L "Orders"))
            ((L "-- sales" ++ [Main.nl])
             ++ free_region (L "Create") (L "  ") (L "table") [Main.nl]
                            (L "`") (L "ORDERS") (L "`") [Main.nl]
                            (L "id INT"))
     = option_map Some (before_close (L "id INT" ++ L ");")).
Proof.
  assert (K1 : same_letters (L "CREATE") (L "Create"))
    by (repeat constructor).
  assert (K2 : same_letters (L "TABLE") (L "table"))
    by (repeat constructor).
  assert (Hn : same_letters (L "Orders") (L "ORDERS"))
    by (repeat constructor).
  assert (Ho : optional_quote open_quotes (L "`")).
  { right; exists "`"%char; split; [simpl; auto | reflexivity]. }
  assert (Hc : optional_quote close_quotes (L "`")).
  { right; exists "`"%char; split; [simpl; auto | reflexivity]. }
  repeat (split; [first [reflexivity | discriminate | assumption]|]).
  apply fallback_region_found;
    first [reflexivity | discriminate | assumption].
Defined.

Lemma before_close_cut (a r : str) :
  before_close (a ++ L ");" ++ r) = before_close (a ++ L ");").
Proof.
  induction a as [|x a IH]; [reflexivity|].
  change ((x :: a) ++ L ");" ++ r) with (x :: (a ++ L ");" ++ r)).
  change ((x :: a) ++ L ");") with (x :: (a ++ L ");")).
  cbn [before_close]; rewrite IH.
  destruct a; reflexivity.
Qed.

(** X9: the body is cut at its first closing parenthesis followed by a
    semicolon: what the script has between that place and the end of
    the statement is not read, so a region has the same group 1, and
    the fallback pass the same descriptors, as the region whose body
    ends there. *)
Theorem body_cut_at_first_close (table_name o c b1 b2 : str) :
  optional_quote open_quotes o ->
  optional_quote close_quotes c ->
  search (table_pattern table_name)
         (region o table_name c (b1 ++ L ");" ++ b2))
  = search (table_pattern table_name) (region o table_name c b1)
  /\ (forall parse,
        no_structured_match parse
          (region o table_name c (b1 ++ L ");" ++ b2)) table_name ->
        no_structured_match parse (region o table_name c b1) table_name ->
        parse_schema parse (region o table_name c (b1 ++ L ");" ++ b2))
                     table_name
        = parse_schema parse (region o table_name c b1) table_name).
Proof.
  intros Ho Hc.
  assert (S : search (table_pattern table_name)
                     (region o table_name c (b1 ++ L ");" ++ b2))
              = search (table_pattern table_name)
                       (region o table_name c b1)).
  { rewrite !(search_region _ _ _ _ Ho Hc).
    rewrite <- !app_assoc, before_close_cut; reflexivity. }
  split; [exact S|].
  intros parse N1 N2; unfold parse_schema.
  rewrite (ExtractorFacts.structured_pass_none parse _ _ dialects N1).
  rewrite (ExtractorFacts.structured_pass_none parse _ _ dialects N2).
  rewrite S; reflexivity.
Qed.

Lemma body_cut_at_first_close_witness :
  optional_quote open_quotes []
  /\ optional_quote close_quotes []
  /\ search (table_pattern (L "t"))
            (region [] (L "t") []
                    (L "a INT DEFAULT f(1" ++ L ");" ++ L ", b INT"))
     = search (table_pattern (L "t"))
              (region [] (L "t") [] (L "a INT DEFAULT f(1")).
Proof.
  assert (Ho : optional_quote open_quotes []) by (left; reflexivity).
  assert (Hc : optional_quote close_quotes []) by (left; reflexivity).
  split; [exact Ho|]; split; [exact Hc|].
  exact (proj1 (body_cut_at_first_close
                  (L "t") [] [] (L "a INT DEFAULT f(1") (L ", b INT")
                  Ho Hc)).
Defined.

End FallbackMore.

(** ** More on the structured pass *)

Module StructuredMore.
Import Schema Sqlglot Extractor Props Notions.

Lemma structured_pass_app parse (sql_content table_name : str)
      (ds rest : list dialect) :
  Forall (passes_over parse sql_content table_name) ds ->
  structured_pass parse sql_content table_name (ds ++ rest)
  = structured_pass parse sql_content table_name rest.
Proof.
  induction 1 as [|d ds Hd _ IH]; [reflexivity|].
  simpl; unfold passes_over in Hd.
  destruct (parse sql_content d) as [expressions|]; [|exact IH].
  destruct (scan d table_name expressions) as [columns| |] eqn:E;
    [|exact IH|exact IH].
  exfalso; apply (Hd columns); reflexivity.
Qed.

(** X10: the dialects are tried in their order and the first one that
    returns decides: when the dialects before it raise or find no
    matching table, its descriptors are the result, whatever the
    dialects after it and the fallback pattern would give. *)
Theorem first_returning_dialect_decides
        parse (sql_content table_name : str)
        (before after : list dialect) (d : dialect)
        (expressions : list expression) (columns : list column) :
  dialects = before ++ d :: after ->
  Forall (passes_over parse sql_content table_name) before ->
  parse sql_content d = Some expressions ->
  scan d table_name expressions = Returned columns ->
  parse_schema parse sql_content table_name = columns.
Proof.
  intros Ed Hb Hp Hs; unfold parse_schema.
  rewrite Ed, (structured_pass_app parse _ _ before _ Hb).
  simpl; rewrite Hp, Hs; reflexivity.
Qed.

Lemma first_returning_dialect_decides_witness :
  dialects = [mysql] ++ postgres :: [oracle; tsql]
  /\ Forall (passes_over
               (fun _ d =>
                  match d with
                  | mysql => None
                  | _ => Some [Create (L "table") (L "Users")
                                 [ColumnDef
                                    (mk_column_def (L "id")
                                       (Some (fun _ => L "INT")) [])]]
                  end)
               users_script (L "users")) [mysql]
  /\ parse_schema
       (fun _ d =>
          match d with
          | mysql => None
          | _ => Some [Create (L "table") (L "Users")
                         [ColumnDef
                            (mk_column_def (L "id")
                               (Some (fun _ => L "INT")) [])]]
          end)
       users_script (L "users")
     = [mk_column (L "id") (L "INT") false].
Proof.
  assert (H : Forall (passes_over
               (fun _ d =>
                  match d with
                  | mysql => None
                  | _ => Some [Create (L "table") (L "Users")
                                 [ColumnDef
                                    (mk_column_def (L "id")
                                       (Some (fun _ => L "INT")) [])]]
                  end)
               users_script (L "users")) [mysql]).
  { constructor; [exact I | constructor]. }
  split; [reflexivity|]; split; [exact H|].
  apply (first_returning_dialect_decides _ _ _ [mysql] [oracle; tsql]
           postgres
           [Create (L "table") (L "Users")
              [ColumnDef
                 (mk_column_def (L "id") (Some (fun _ => L "INT")) [])]]
           _ eq_refl H); reflexivity.
Defined.

(** The descriptor of a column definition that has a type. *)
Lemma columns_of_from (d : dialect) (defs : list schema_def) :
  forall columns,
    columns_of d defs columns
    = if forallb (fun c => match cd_kind c with
                           | Some _ => true
                           | None => false
                           end) (column_defs defs)
      then Some (columns
                 ++ map (fun c =>
                           mk_column (cd_name c)
                             (match cd_kind c with
                              | Some kind => kind d
                              | None => []
                              end)
                             (constraints_identity d (cd_constraints c)))
                        (column_defs defs))
      else None.
Proof.
  induction defs as [|[c|] defs IH]; intros columns; simpl.
  - rewrite app_nil_r; reflexivity.
  - destruct (cd_kind c) as [kind|]; simpl; [|reflexivity].
    rewrite IH.
    destruct (forallb _ (column_defs defs)); [|reflexivity].
    rewrite <- app_assoc; reflexivity.
  - apply IH.
Qed.


End StructuredMore.

(** ** More on the context detector *)

Module DetectorMore.
Import Re Props Notions Extractor ReFacts.

Lemma take_drop (p : ascii -> bool) (s : str) :
  take_while p s ++ PyStr.drop_while p s = s.
Proof.
  induction s as [|c s IH]; [reflexivity|].
  simpl; destruct (p c); [simpl; rewrite IH|]; reflexivity.
Qed.

Lemma take_while_all (p : ascii -> bool) (s : str) :
  forallb p (take_while p s) = true.
Proof.
  induction s as [|c s IH]; [reflexivity|].
  simpl; destruct (p c) eqn:P; [simpl; rewrite P, IH|]; reflexivity.
Qed.

Lemma take_while_run (p : ascii -> bool) (a rest : str) :
  forallb p a = true -> stops p rest = true ->
  take_while p (a ++ rest) = a.
Proof.
  intros F S; induction a as [|c a IH].
  - destruct rest as [|x rest]; [reflexivity|].
    simpl in *; apply negb_true_iff in S; rewrite S; reflexivity.
  - simpl in F; apply andb_true_iff in F; destruct F as [Fc Fa].
    simpl; rewrite Fc, (IH Fa); reflexivity.
Qed.

Section Greedy.
Context {A : Type}.

Lemma star_greedy_total (p : ascii -> bool) (f : str -> A) (s : str) :
  star_greedy p s (fun s' => Some (f s'))
  = Some (f (PyStr.drop_while p s)).
Proof.
  induction s as [|x s IH]; [reflexivity|].
  simpl; destruct (p x); [rewrite IH|]; reflexivity.
Qed.

Lemma star_greedy_stops (p : ascii -> bool) (s : str)
      (k : str -> option A) :
  stops p s = true -> star_greedy p s k = k s.
Proof.
  destruct s as [|x s]; [reflexivity|].
  simpl; intros S; apply negb_true_iff in S; rewrite S; reflexivity.
Qed.

Lemma star_greedy_run (p : ascii -> bool) (w s : str)
      (k : str -> option A) (a : A) :
  forallb p w = true -> stops p s = true -> k s = Some a ->
  star_greedy p (w ++ s) k = Some a.
Proof.
  intros F S K; induction w as [|x w IH].
  - simpl; rewrite (star_greedy_stops p s k S); exact K.
  - simpl in F; apply andb_true_iff in F; destruct F as [Fx Fw].
    simpl; rewrite Fx, (IH Fw); reflexivity.
Qed.

Lemma m_lits_same (w U rest : str) (g : option str)
      (k : option str -> str -> option A) :
  same_letters w U -> m (lits w) g (U ++ rest) k = k g rest.
Proof.
  intros H; induction H as [|c x w U E _ IH]; [reflexivity|].
  change (m (lits (c :: w)) g ((x :: U) ++ rest) k)
    with (if chr_eq c x then m (lits w) g (U ++ rest) k else None).
  rewrite E; exact IH.
Qed.

Lemma m_lits_other (c x : ascii) (w s : str) (g : option str)
      (k : option str -> str -> option A) :
  chr_eq c x = false -> m (lits (c :: w)) g (x :: s) k = None.
Proof.
  intros H.
  change (m (lits (c :: w)) g (x :: s) k)
    with (if chr_eq c x then m (lits w) g s k else None).
  rewrite H; reflexivity.
Qed.
End Greedy.

(** What [(C+)] at the end of a pattern makes of a text: group 1 is
    the longest run of characters of the class. *)
Lemma ident_group_match (g : option str) (s : str) :
  m (seq [Grp (Plus ident_char)]) g s (fun g' _ => Some g')
  = match s with
    | x :: r =>
        if ident_char x then Some (Some (x :: take_while ident_char r))
        else None
    | [] => None
    end.
Proof.
  destruct s as [|x r]; [reflexivity|].
  change (m (seq [Grp (Plus ident_char)]) g (x :: r) (fun g' _ => Some g'))
    with (if ident_char x
          then star_greedy ident_char r
                 (fun s' =>
                    Some (Some (firstn (length (x :: r) - length s')
                                       (x :: r))))
          else None).
  destruct (ident_char x); [|reflexivity].
  rewrite (star_greedy_total ident_char
             (fun s' => Some (firstn (length (x :: r) - length s')
                                     (x :: r)))).
  do 2 f_equal.
  rewrite <- (take_drop ident_char r) at 1 3.
  apply (firstn_prefix (x :: take_while ident_char r)).
Qed.

Lemma ident_not_space (x : ascii) :
  ident_char x = true -> PyStr.isspace x = false.
Proof.
  destruct x as [[] [] [] [] [] [] [] []]; intros H;
    vm_compute in H; try discriminate H; reflexivity.
Qed.

Lemma use_statement_match (kw w id rest : str) :
  same_letters (L "USE") kw ->
  w <> [] -> forallb PyStr.isspace w = true ->
  id <> [] -> forallb ident_char id = true ->
  stops ident_char rest = true ->
  match_at use_pattern (kw ++ w ++ id ++ rest) = Some (Some id).
Proof.
  intros K Nw Fw Ni Fi S.
  change (match_at use_pattern (kw ++ w ++ id ++ rest))
    with (m (lits (L "USE")) None (kw ++ w ++ id ++ rest)
            (fun g s =>
               m (Plus PyStr.isspace) g s
                 (fun g' s' =>
                    m (seq [Grp (Plus ident_char)]) g' s'
                      (fun g'' _ => Some g'')))).
  rewrite (m_lits_same _ _ _ _ _ K).
  destruct w as [|x w]; [congruence|].
  simpl in Fw; apply andb_true_iff in Fw; destruct Fw as [Fx Fw].
  destruct id as [|y id]; [congruence|].
  simpl in Fi; apply andb_true_iff in Fi; destruct Fi as [Fy Fi].
  cbn [m app]; rewrite Fx.
  apply star_greedy_run; [exact Fw | |].
  - simpl; rewrite (ident_not_space y Fy); reflexivity.
  - rewrite ident_group_match; simpl; rewrite Fy.
    rewrite (take_while_run ident_char id rest Fi S); reflexivity.
Qed.

Lemma use_search_skips (pre s : str) :
  without_letter "U" pre = true ->
  search use_pattern (pre ++ s) = search use_pattern s.
Proof.
  induction pre as [|x pre IH]; intros F; [reflexivity|].
  simpl in F; apply andb_true_iff in F; destruct F as [Fx F].
  apply negb_true_iff in Fx.
  change ((x :: pre) ++ s) with (x :: (pre ++ s)).
  cbn [search].
  replace (match_at use_pattern (x :: pre ++ s)) with (@None match_obj).
  - apply IH; exact F.
  - symmetry.
    apply (m_lits_other "U" x (L "SE") (pre ++ s) None _ Fx).
Qed.

(** X12: a USE statement is found in any case of its letters, with any
    white space after the word, after a text that has no letter U: the
    database name is the longest run of identifier and quote characters
    that follows, without the quote and bracket characters around it;
    the engine plays no part. *)
Theorem use_statement_found (pre kw w id rest engine : str) :
  without_letter "U" pre = true ->
  same_letters (L "USE") kw ->
  w <> [] -> forallb PyStr.isspace w = true ->
  id <> [] -> forallb ident_char id = true ->
  stops ident_char rest = true ->
  extract_database_name (pre ++ kw ++ w ++ id ++ rest) engine
  = Some (PyStr.strip_chars quote_chars id).
Proof.
  intros Fp K Nw Fw Ni Fi S; unfold extract_database_name.
  rewrite (use_search_skips _ _ Fp).
  rewrite (search_at_start _ _ _
             (use_statement_match kw w id rest K Nw Fw Ni Fi S)).
  reflexivity.
Qed.

Lemma use_statement_found_witness :
  without_letter "U" (L "-- shop db" ++ [Main.nl]) = true
  /\ same_letters (L "USE") (L "use")
  /\ L "  " <> []
  /\ forallb PyStr.isspace (L "  ") = true
  /\ L "[shop_db]" <> []
  /\ forallb ident_char (L "[shop_db]") = true
  /\ stops ident_char (L ";") = true
  /\ extract_database_name
       ((L "-- shop db" ++ [Main.nl])
        ++ L "use" ++ L "  " ++ L "[shop_db]" ++ L ";") (L "mssql")
     = Some (PyStr.strip_chars quote_chars (L "[shop_db]")).
Proof.
  assert (K : same_letters (L "USE") (L "use")) by (repeat constructor).
  repeat (split; [first [reflexivity | discriminate | assumption]|]).
  apply use_statement_found;
    first [reflexivity | discriminate | assumption].
Defined.

Lemma search_found_somewhere (r : regex) (s : str) (mo : match_obj) :
  search r s = Some mo -> exists s', match_at r s' = Some mo.
Proof.
  induction s as [|x s IH]; cbn [search]; intros H.
  - destruct (match_at r []) eqn:M; [|discriminate].
    exists []; congruence.
  - destruct (match_at r (x :: s)) eqn:M; [exists (x :: s); congruence|].
    apply IH; exact H.
Qed.

Lemma group_last (g : option str) (s : str) (mo : match_obj) :
  m (seq [Grp (Plus ident_char)]) g s (fun g' _ => Some g') = Some mo ->
  group_of_class mo.
Proof.
  rewrite ident_group_match.
  destruct s as [|x r]; [discriminate|].
  destruct (ident_char x) eqn:Ix; [|discriminate].
  intros H; injection H as <-.
  eexists; split; [reflexivity|]; split; [discriminate|].
  simpl; rewrite Ix; apply take_while_all.
Qed.

Lemma group_after (r1 r2 : regex) :
  (forall g s mo,
      m r2 g s (fun g' _ => Some g') = Some mo -> group_of_class mo) ->
  forall g s mo,
    m (Cat r1 r2) g s (fun g' _ => Some g') = Some mo -> group_of_class mo.
Proof.
  intros H g s mo M; cbn [m] in M.
  destruct (m_sound _ _ _ _ _ M) as (s1 & s2 & g' & _ & _ & K).
  apply (H g' s2 mo K).
Qed.

Lemma detector_patterns_group (s : str) (mo : match_obj) :
  search use_pattern s = Some mo \/ search create_pattern s = Some mo ->
  group_of_class mo.
Proof.
  intros [H | H]; apply search_found_somewhere in H;
    destruct H as (s' & H); unfold match_at in H; revert H.
  - do 2 apply group_after; apply group_last.
  - do 4 apply group_after; apply group_last.
Qed.

(** X13: whatever the script, a name the detector returns is made of
    characters of the class of the patterns (letters, digits,
    underscore, brackets and quotes) and neither begins nor ends with a
    bracket or quote character. *)
Theorem database_name_shape (sql_content engine name : str) :
  extract_database_name sql_content engine = Some name ->
  forallb ident_char name = true
  /\ stops (fun c => PyStr.mem c quote_chars) name = true
  /\ last_is (fun c => PyStr.mem c quote_chars) name = false.
Proof.
  unfold extract_database_name; intros H.
  assert (G : exists mo, group_of_class mo
                         /\ name = PyStr.strip_chars quote_chars (group1 mo)).
  { destruct (search use_pattern sql_content) as [mo|] eqn:S1.
    - injection H as <-; exists mo; split; [|reflexivity].
      apply (detector_patterns_group sql_content); auto.
    - destruct (search create_pattern sql_content) as [mo|] eqn:S2;
        [|discriminate].
      injection H as <-; exists mo; split; [|reflexivity].
      apply (detector_patterns_group sql_content); auto. }
  destruct G as (mo & (g & -> & _ & Fg) & ->); cbn [group1].
  split; [apply ClauseMore.strip_chars_keeps; exact Fg|].
  split; [|apply PyStrFacts.rstrip_by_no_trailing].
  pose proof (ClauseFacts.strip_by_head
                (fun c => PyStr.mem c quote_chars) g) as Hd.
  unfold PyStr.strip_chars, stops.
  destruct (PyStr.strip_by (fun c => PyStr.mem c quote_chars) g);
    [reflexivity | rewrite Hd; reflexivity].
Qed.

Lemma database_name_shape_witness :
  extract_database_name (L "CREATE DATABASE `shop`; -- x") (L "mysql")
  = Some (L "shop")
  /\ (forallb ident_char (L "shop") = true
      /\ stops (fun c => PyStr.mem c quote_chars) (L "shop") = true
      /\ last_is (fun c => PyStr.mem c quote_chars) (L "shop") = false).
Proof.
  split; [reflexivity|].
  apply (database_name_shape (L "CREATE DATABASE `shop`; -- x") (L "mysql"));
    reflexivity.
Defined.

End DetectorMore.

(** ** More on the literal formatter *)

Module FormatterMore.
Import Formatter Props Notions.

Lemma unquote_rest_doubled (s : str) :
  unquote_rest (double_quotes s ++ L "'") = Some s.
Proof.
  induction s as [|c s IH]; [reflexivity|].
  unfold double_quotes; cbn [flat_map].
  fold (double_quotes s).
  destruct (Ascii.eqb c "'") eqn:E.
  - change (([c; c] ++ double_quotes s) ++ L "'")
      with (c :: c :: (double_quotes s ++ L "'")).
    cbn [unquote_rest]; rewrite E, IH; reflexivity.
  - change (([c] ++ double_quotes s) ++ L "'")
      with (c :: (double_quotes s ++ L "'")).
    cbn [unquote_rest]; rewrite E, IH; reflexivity.
Qed.

Lemma format_text (v : value) (engine : str) :
  is_none v = false -> isinstance_int_float v = false ->
  format_sql_value v engine = L "'" ++ double_quotes (py_str v) ++ L "'".
Proof.
  intros N I; unfold format_sql_value.
  rewrite N, I.
  destruct (isinstance_bool v) eqn:B; [destruct v; discriminate|].
  rewrite FormatterFacts.replace1_double_quotes; reflexivity.
Qed.

(** X14: a string literal of the dump reads back as the text it was
    made from: for a value that is neither null nor a number, reading
    the formatted text as a literal of SQL gives [str] of the value; so
    two strings with the same literal are the same string. *)
Theorem string_literal_round_trip (engine : str) :
  (forall v, is_none v = false -> isinstance_int_float v = false ->
             unquote (format_sql_value v engine) = Some (py_str v))
  /\ (forall s1 s2,
        format_sql_value (VStr s1) engine = format_sql_value (VStr s2) engine
        -> s1 = s2).
Proof.
  assert (R : forall v, is_none v = false ->
                        isinstance_int_float v = false ->
                        unquote (format_sql_value v engine)
                        = Some (py_str v)).
  { intros v N I; rewrite (format_text v engine N I).
    change (unquote (L "'" ++ double_quotes (py_str v) ++ L "'"))
      with (unquote_rest (double_quotes (py_str v) ++ L "'")).
    apply unquote_rest_doubled. }
  split; [exact R|].
  intros s1 s2 E.
  pose proof (R (VStr s1) eq_refl eq_refl) as R1.
  pose proof (R (VStr s2) eq_refl eq_refl) as R2.
  rewrite E, R2 in R1; injection R1 as ->; reflexivity.
Qed.

End FormatterMore.

(** ** More on the classifier *)

Module ClassifierMore.
Import Classifier.

Ltac split_on_name_rule name :=
  match goal with
  | |- context [has ?w name] =>
      let E := fresh "E" in
      destruct (has w name) eqn:E; cbn [orb] in *; try reflexivity
  end.

(** X17: a name rule wins over the declared type: when the name, in
    lower case, meets one of the name rules before the [id_] rule, the
    provider is the same for every declared type. *)
Theorem name_rule_ignores_type (col_name t1 t2 : str) :
  earlier_name_rule (PyStr.lower col_name) = true ->
  map_column_to_mimesis col_name t1 = map_column_to_mimesis col_name t2.
Proof.
  unfold map_column_to_mimesis, earlier_name_rule.
  set (name := PyStr.lower col_name).
  intros H.
  do 20 split_on_name_rule name.
  discriminate H.
Qed.

Lemma name_rule_ignores_type_witness :
  earlier_name_rule (PyStr.lower (L "Hotel_Name")) = true
  /\ map_column_to_mimesis (L "Hotel_Name") (L "INT")
     = map_column_to_mimesis (L "Hotel_Name") (L "DATETIME").
Proof.
  split; [reflexivity|].
  apply name_rule_ignores_type; reflexivity.
Defined.

(** X18: when the name meets no name rule and does not start with
    [id_], the declared type alone decides: the provider is that of the
    empty name with the same type, one of the integers up to 100000,
    the rounded float, the word and the boolean choice. *)
Theorem type_decides_unnamed (col_name col_type : str) :
  earlier_name_rule (PyStr.lower col_name) = false ->
  PyStr.startswith (L "id_") (PyStr.lower col_name) = false ->
  map_column_to_mimesis col_name col_type
  = map_column_to_mimesis [] col_type
  /\ In (map_column_to_mimesis col_name col_type)
        [integer_number 1 100000; float_number_1_1000000_2; text_word;
         choice_bool].
Proof.
  unfold map_column_to_mimesis, earlier_name_rule.
  set (name := PyStr.lower col_name).
  set (t := PyStr.lower col_type).
  intros H Hid.
  assert (N : PyStr.lower [] = []) by reflexivity.
  rewrite N.
  change (has "email" []) with false.
  repeat match goal with
         | |- context [has ?w []] => change (has w []) with false
         end.
  change (PyStr.startswith (L "id_") []) with false.
  rewrite Hid; cbn [orb andb].
  do 20 (match goal with
         | H : context [has ?w name] |- _ =>
             let E := fresh "E" in
             destruct (has w name) eqn:E; cbn [orb] in H;
             [discriminate H|]
         end).
  cbn [orb].
  split; [reflexivity|].
  repeat match goal with
         | |- context [has ?w t] => destruct (has w t); cbn [orb]
         end; simpl; auto.
Qed.

Lemma type_decides_unnamed_witness :
  earlier_name_rule (PyStr.lower (L "Quantity")) = false
  /\ PyStr.startswith (L "id_") (PyStr.lower (L "Quantity")) = false
  /\ map_column_to_mimesis (L "Quantity") (L "BIGINT")
     = map_column_to_mimesis [] (L "BIGINT")
  /\ In (map_column_to_mimesis (L "Quantity") (L "BIGINT"))
        [integer_number 1 100000; float_number_1_1000000_2; text_word;
         choice_bool].
Proof.
  split; [reflexivity|]; split; [reflexivity|].
  apply type_decides_unnamed; reflexivity.
Defined.

End ClassifierMore.

(** ** [main] *)

Module MainMore.
Import Schema Main Notions.

Lemma eqb_sym (a : str) : forall b, PyStr.eqb a b = PyStr.eqb b a.
Proof.
  induction a as [|x a IH]; intros [|y b]; simpl; try reflexivity.
  rewrite (Ascii.eqb_sym x y), IH; reflexivity.
Qed.

Lemma dict_set_keys {V : Type} (k : str) (v : V) (d : list (str * V)) :
  map fst (dict_set k v d)
  = if existsb (PyStr.eqb k) (map fst d) then map fst d
    else map fst d ++ [k].
Proof.
  induction d as [|[k' v'] d IH]; [reflexivity|].
  simpl; rewrite (eqb_sym k k').
  destruct (PyStr.eqb k' k); simpl; [reflexivity|].
  rewrite IH; destruct (existsb (PyStr.eqb k) (map fst d)); reflexivity.
Qed.

Lemma first_occurrences_seen (keys : list str) :
  forall seen seen',
    (forall k, existsb (PyStr.eqb k) seen = existsb (PyStr.eqb k) seen') ->
    first_occurrences seen keys = first_occurrences seen' keys.
Proof.
  induction keys as [|k keys IH]; intros seen seen' H; [reflexivity|].
  simpl; rewrite <- (H k).
  destruct (existsb (PyStr.eqb k) seen); [apply IH; exact H|].
  f_equal; apply IH; intros x; simpl; rewrite H; reflexivity.
Qed.

Lemma seen_snoc (k : str) (seen : list str) (x : str) :
  existsb (PyStr.eqb x) (seen ++ [k]) = existsb (PyStr.eqb x) (k :: seen).
Proof.
  rewrite existsb_app; simpl.
  rewrite orb_false_r; apply orb_comm.
Qed.

(** The keys of the providers: the names, each at the place where it
    comes first. *)
Lemma providers_keys_from (columns : list column) :
  forall d : list (str * Classifier.generator),
    map fst
        (fold_left
           (fun d col =>
              dict_set (name col)
                (Classifier.map_column_to_mimesis (name col) (type col)) d)
           columns d)
    = map fst d ++ first_occurrences (map fst d) (map name columns).
Proof.
  induction columns as [|col columns IH]; intros d; simpl.
  - rewrite app_nil_r; reflexivity.
  - rewrite IH, dict_set_keys.
    destruct (existsb (PyStr.eqb (name col)) (map fst d)); [reflexivity|].
    rewrite <- app_assoc; simpl; do 2 f_equal.
    apply first_occurrences_seen; intros x; apply seen_snoc.
Qed.

Lemma providers_keys (columns : list column) :
  map fst (providers_of columns)
  = first_occurrences [] (map name columns).
Proof. unfold providers_of; rewrite providers_keys_from; reflexivity. Qed.

Lemma first_occurrences_again (keys : list str) :
  forall seen,
    first_occurrences seen (first_occurrences seen keys)
    = first_occurrences seen keys.
Proof.
  induction keys as [|k keys IH]; intros seen; [reflexivity|].
  simpl; destruct (existsb (PyStr.eqb k) seen) eqn:E; [apply IH|].
  simpl; rewrite E, IH; reflexivity.
Qed.

Lemma first_occurrences_in (keys : list str) :
  forall seen k,
    In k (first_occurrences seen keys)
    <-> In k keys /\ existsb (PyStr.eqb k) seen = false.
Proof.
  induction keys as [|x keys IH]; intros seen k; simpl; [tauto|].
  destruct (existsb (PyStr.eqb x) seen) eqn:E.
  - rewrite IH; split; [tauto|].
    intros [[-> | H] F]; [congruence | auto].
  - simpl; rewrite IH; simpl.
    destruct (PyStr.eqb k x) eqn:Ek.
    + apply PyStrFacts.eqb_eq in Ek; subst x; simpl; tauto.
    + simpl; split.
      * intros [-> | [H F]]; [|auto].
        rewrite PyStrFacts.eqb_refl in Ek; discriminate.
      * intros [[-> | H] F]; auto.
Qed.

Section World.
Variable sqlglot_parse :
  str -> Sqlglot.dialect -> option (list Sqlglot.expression).
Variable read_file : str -> option str.
Variable Rng : Type.
Variable call : Classifier.generator -> Rng -> Formatter.value * Rng.
Variable seed : Rng.

Lemma row_data_keys (providers : list (str * Classifier.generator)) :
  forall row_data r,
    map fst (fst (row_data_of Rng call providers row_data r))
    = map fst row_data
      ++ first_occurrences (map fst row_data) (map fst providers).
Proof.
  induction providers as [|[k g] providers IH]; intros row_data r; simpl.
  - rewrite app_nil_r; reflexivity.
  - destruct (call g r) as [val r'].
    rewrite IH, dict_set_keys.
    destruct (existsb (PyStr.eqb k) (map fst row_data)); [reflexivity|].
    rewrite <- app_assoc; simpl; do 2 f_equal.
    apply first_occurrences_seen; intros x; apply seen_snoc.
Qed.

(** What an INSERT statement of a table is: the column names and, for
    as many values, their literals. *)
Lemma insert_writes_shape (a : arguments) (columns : list column)
      (n : nat) :
  forall r,
    length (insert_writes Rng call a (providers_of columns) n r) = n
    /\ Forall
         (fun w =>
            exists vals,
              length vals
              = length (first_occurrences [] (map name columns))
              /\ w = L "INSERT INTO " ++ table a ++ L " ("
                     ++ join (L ", ")
                             (first_occurrences [] (map name columns))
                     ++ L ") VALUES ("
                     ++ join (L ", ")
                          (map (fun v =>
                                  Formatter.format_sql_value v (engine a))
                               vals)
                     ++ L ");" ++ [nl])
         (insert_writes Rng call a (providers_of columns) n r).
Proof.
  induction n as [|n IH]; intros r; simpl; [split; constructor|].
  destruct (row_data_of Rng call (providers_of columns) [] r)
    as [row_data r'] eqn:E.
  destruct (IH r') as [Hl Hf].
  split; [simpl; rewrite Hl; reflexivity|].
  constructor; [|exact Hf].
  assert (K : map fst row_data
              = first_occurrences [] (map name columns)).
  { pose proof (row_data_keys (providers_of columns) [] r) as R.
    rewrite E in R; simpl in R.
    rewrite R, providers_keys; apply first_occurrences_again. }
  exists (map snd row_data); split.
  - rewrite <- K, !length_map; reflexivity.
  - unfold insert_stmt; rewrite K, map_map; reflexivity.
Qed.

Lemma insert_writes_are_inserts (a : arguments)
      (providers : list (str * Classifier.generator)) (n : nat) :
  forall r,
    Forall (fun w => is_insert w = true)
           (insert_writes Rng call a providers n r).
Proof.
  induction n as [|n IH]; intros r; simpl; [constructor|].
  destruct (row_data_of Rng call providers [] r) as [row_data r'].
  constructor; [|apply IH].
  unfold is_insert, insert_stmt; apply ClauseFacts.startswith_app.
Qed.

Lemma filter_all (l : list str) :
  Forall (fun w => is_insert w = true) l -> filter is_insert l = l.
Proof.
  induction 1 as [|w l Hw _ IH]; [reflexivity|].
  simpl; rewrite Hw, IH; reflexivity.
Qed.

Lemma filter_none (l : list str) :
  Forall (fun w => is_insert w = false) l -> filter is_insert l = [].
Proof.
  induction 1 as [|w l Hw _ IH]; [reflexivity|].
  simpl; rewrite Hw, IH; reflexivity.
Qed.

Lemma header_no_insert (a : arguments) (identity_columns : list column) :
  Forall (fun w => is_insert w = false) (header_writes a identity_columns).
Proof.
  unfold header_writes.
  destruct identity_columns; repeat constructor.
Qed.

Lemma use_no_insert (a : arguments) (db_name : option str) :
  Forall (fun w => is_insert w = false) (use_writes a db_name).
Proof.
  unfold use_writes.
  destruct (truthy db_name); [|constructor].
  destruct (PyStr.eqb (engine a) (L "mssql")); repeat constructor.
Qed.

Lemma nocheck_no_insert (a : arguments) :
  Forall (fun w => is_insert w = false) (nocheck_writes a).
Proof.
  unfold nocheck_writes.
  destruct (PyStr.eqb (engine a) (L "mssql")); repeat constructor.
Qed.

Lemma closing_no_insert (a : arguments) :
  Forall (fun w => is_insert w = false) (closing_writes a).
Proof.
  unfold closing_writes.
  destruct (PyStr.eqb (engine a) (L "oracle"));
    destruct (PyStr.eqb (engine a) (L "mssql")); repeat constructor.
Qed.

(** How a run that ends normally is made up. *)
Lemma main_finished (a : arguments) (stdout : list str)
      (output_file : str) (writes : list str) :
  main sqlglot_parse read_file Rng call seed a
  = Finished stdout output_file writes ->
  exists sql_content,
    read_file (script a) = Some sql_content
    /\ Extractor.parse_schema sqlglot_parse sql_content (table a) <> []
    /\ writes
       = header_writes a
           (filter is_identity
              (Extractor.parse_schema sqlglot_parse sql_content (table a)))
         ++ use_writes a
              (or_else (db a)
                 (Extractor.extract_database_name sql_content (engine a)))
         ++ nocheck_writes a
         ++ insert_writes Rng call a
              (providers_of
                 (filter (fun c => negb (is_identity c))
                    (Extractor.parse_schema sqlglot_parse sql_content
                       (table a))))
              (Z.to_nat (rows a)) seed
         ++ closing_writes a.
Proof.
  unfold main.
  destruct (read_file (script a)) as [sql_content|]; [|discriminate].
  destruct (Extractor.parse_schema sqlglot_parse sql_content (table a))
    as [|col all_columns] eqn:P; [discriminate|].
  intros H; injection H as _ _ <-.
  exists sql_content; rewrite P.
  split; [reflexivity|]; split; [discriminate | reflexivity].
Qed.

Lemma inserts_of_main (a : arguments) (stdout : list str)
      (output_file : str) (writes : list str) :
  main sqlglot_parse read_file Rng call seed a
  = Finished stdout output_file writes ->
  exists sql_content,
    read_file (script a) = Some sql_content
    /\ filter is_insert writes
       = insert_writes Rng call a
           (providers_of
              (filter (fun c => negb (is_identity c))
                 (Extractor.parse_schema sqlglot_parse sql_content
                    (table a))))
           (Z.to_nat (rows a)) seed.
Proof.
  intros H; destruct (main_finished _ _ _ _ H) as (sql & R & _ & ->).
  exists sql; split; [exact R|].
  rewrite !filter_app.
  rewrite (filter_none _ (header_no_insert _ _)).
  rewrite (filter_none _ (use_no_insert _ _)).
  rewrite (filter_none _ (nocheck_no_insert _)).
  rewrite (filter_none _ (closing_no_insert _)).
  rewrite (filter_all _ (insert_writes_are_inserts _ _ _ _)).
  simpl; apply app_nil_r.
Qed.

(** X20: a run that ends normally writes one INSERT statement for each
    of the requested rows, and none when the number of rows is zero or
    negative. *)
Theorem one_insert_per_row (a : arguments) (stdout : list str)
        (output_file : str) (writes : list str) :
  main sqlglot_parse read_file Rng call seed a
  = Finished stdout output_file writes ->
  length (filter is_insert writes) = Z.to_nat (rows a).
Proof.
  intros H; destruct (inserts_of_main _ _ _ _ H) as (sql & _ & ->).
  apply insert_writes_shape.
Qed.

(** X21: every INSERT statement of a run names the table, then the
    names of the columns that are not identity columns, each once, at
    the place where it comes first, and then as many literals as
    names. *)
Theorem insert_statements_shape (a : arguments) (sql_content : str)
        (stdout : list str) (output_file : str) (writes : list str) :
  read_file (script a) = Some sql_content ->
  main sqlglot_parse read_file Rng call seed a
  = Finished stdout output_file writes ->
  Forall
    (fun w =>
       exists vals,
         length vals
         = length
             (first_occurrences []
                (map name
                   (filter (fun c => negb (is_identity c))
                      (Extractor.parse_schema sqlglot_parse
                         sql_content (table a)))))
         /\ w = L "INSERT INTO " ++ table a ++ L " ("
                ++ join (L ", ")
                     (first_occurrences []
                        (map name
                           (filter (fun c => negb (is_identity c))
                              (Extractor.parse_schema sqlglot_parse
                                 sql_content (table a)))))
                ++ L ") VALUES ("
                ++ join (L ", ")
                     (map (fun v =>
                             Formatter.format_sql_value v (engine a))
                          vals)
                ++ L ");" ++ [nl])
    (filter is_insert writes).
Proof.
  intros R0 H; destruct (inserts_of_main _ _ _ _ H) as (sql & R & ->).
  rewrite R0 in R; injection R as <-.
  apply insert_writes_shape.
Qed.

Lemma repeat_inserts (a : arguments) (n : nat) :
  forall r,
    insert_writes Rng call a [] n r
    = repeat (L "INSERT INTO " ++ table a ++ L " () VALUES ();" ++ [nl]) n.
Proof.
  induction n as [|n IH]; intros r; [reflexivity|].
  simpl; rewrite IH; reflexivity.
Qed.


Lemma not_among (p x : str) (l : list str) :
  Forall (fun w => PyStr.startswith p w = false) l ->
  PyStr.startswith p x = true -> ~ In x l.
Proof.
  intros F Hx Hin; rewrite Forall_forall in F.
  rewrite (F x Hin) in Hx; discriminate.
Qed.

Lemma none_starts (p : str) (l : list str) :
  Forall (fun w => PyStr.startswith p w = false) l ->
  existsb (PyStr.startswith p) l = false.
Proof.
  induction 1 as [|w l Hw _ IH]; [reflexivity|].
  simpl; rewrite Hw, IH; reflexivity.
Qed.

Lemma inserts_start_otherwise (p : str) (l : list str) :
  (forall b, PyStr.startswith p (L "INSERT INTO " ++ b) = false) ->
  Forall (fun w => is_insert w = true) l ->
  Forall (fun w => PyStr.startswith p w = false) l.
Proof.
  intros Hp F; apply Forall_forall; intros w Hin.
  rewrite Forall_forall in F; specialize (F w Hin).
  destruct (ClauseMore.startswith_elim _ _ F) as (b & ->).
  apply Hp.
Qed.



End World.

Ltac run_finished :=
  vm_compute; reflexivity.

Lemma one_insert_per_row_witness :
  demo_main (demo_arguments "oracle" None)
  = Finished (stdout_of (demo_main (demo_arguments "oracle" None)))
             (output_file_of (demo_main (demo_arguments "oracle" None)))
             (writes_of (demo_main (demo_arguments "oracle" None)))
  /\ length (filter is_insert
                    (writes_of (demo_main (demo_arguments "oracle" None))))
     = Z.to_nat (rows (demo_arguments "oracle" None)).
Proof.
  assert (H : demo_main (demo_arguments "oracle" None)
              = Finished
                  (stdout_of (demo_main (demo_arguments "oracle" None)))
                  (output_file_of (demo_main (demo_arguments "oracle" None)))
                  (writes_of (demo_main (demo_arguments "oracle" None))))
    by run_finished.
  split; [exact H|].
  apply (one_insert_per_row
           (fun _ _ => None) (fun _ => Some demo_script) nat
           (fun _ r => (Formatter.VInt (Z.of_nat r), S r)) 0
           (demo_arguments "oracle" None) _ _ _ H).
Defined.

Lemma insert_statements_shape_witness :
  Some demo_script = Some demo_script
  /\ demo_main (demo_arguments "mysql" None)
     = Finished (stdout_of (demo_main (demo_arguments "mysql" None)))
                (output_file_of (demo_main (demo_arguments "mysql" None)))
                (writes_of (demo_main (demo_arguments "mysql" None)))
  /\ Forall
       (fun w =>
          exists vals,
            length vals
            = length
                (first_occurrences []
                   (map name
                      (filter (fun c => negb (is_identity c))
                         (Extractor.parse_schema (fun _ _ => None)
                            demo_script
                            (table (demo_arguments "mysql" None))))))
            /\ w = L "INSERT INTO " ++ table (demo_arguments "mysql" None)
                   ++ L " ("
                   ++ join (L ", ")
                        (first_occurrences []
                           (map name
                              (filter (fun c => negb (is_identity c))
                                 (Extractor.parse_schema (fun _ _ => None)
                                    demo_script
                                    (table (demo_arguments "mysql" None))))))
                   ++ L ") VALUES ("
                   ++ join (L ", ")
                        (map (fun v =>
                                Formatter.format_sql_value v
                                  (engine (demo_arguments "mysql" None)))
                             vals)
                   ++ L ");" ++ [nl])
       (filter is_insert
               (writes_of (demo_main (demo_arguments "mysql" None)))).
Proof.
  assert (H : demo_main (demo_arguments "mysql" None)
              = Finished
                  (stdout_of (demo_main (demo_arguments "mysql" None)))
                  (output_file_of (demo_main (demo_arguments "mysql" None)))
                  (writes_of (demo_main (demo_arguments "mysql" None))))
    by run_finished.
  split; [reflexivity|]; split; [exact H|].
  apply (insert_statements_shape
           (fun _ _ => None) (fun _ => Some demo_script) nat
           (fun _ r => (Formatter.VInt (Z.of_nat r), S r)) 0
           (demo_arguments "mysql" None) demo_script _ _ _ eq_refl H).
Defined.




Lemma first_occurrences_nodup (keys : list str) :
  forall seen, NoDup (first_occurrences seen keys).
Proof.
  induction keys as [|k keys IH]; intros seen; simpl; [constructor|].
  destruct (existsb (PyStr.eqb k) seen); [apply IH|].
  constructor; [|apply IH].
  intros Hin; apply first_occurrences_in in Hin; destruct Hin as [_ F].
  simpl in F; rewrite PyStrFacts.eqb_refl in F; discriminate.
Qed.

(** X25: the providers are kept under the names of the columns that
    are not identity columns: every such name is a key, no other name
    is, and no key comes twice, also when several columns have the same
    name. *)
Theorem provider_names (all_columns : list column) :
  NoDup (map fst (providers_of
                    (filter (fun c => negb (is_identity c)) all_columns)))
  /\ (forall k,
        In k (map fst (providers_of
                         (filter (fun c => negb (is_identity c))
                                 all_columns)))
        <-> exists col,
              In col all_columns /\ is_identity col = false
              /\ name col = k).
Proof.
  rewrite providers_keys; split; [apply first_occurrences_nodup|].
  intros k; rewrite first_occurrences_in, in_map_iff; simpl.
  split.
  - intros [(col & <- & Hin) _].
    apply filter_In in Hin; destruct Hin as [Hin Hi].
    apply negb_true_iff in Hi; eauto.
  - intros (col & Hin & Hi & <-); split; [|reflexivity].
    exists col; split; [reflexivity|].
    apply filter_In; rewrite Hi; auto.
Qed.

Lemma dict_set_in {V : Type} (k0 : str) (v : V) (d : list (str * V)) :
  NoDup (map fst d) ->
  forall k g,
    In (k, g) (dict_set k0 v d)
    <-> (k = k0 /\ g = v) \/ (k <> k0 /\ In (k, g) d).
Proof.
  induction d as [|[k' v'] d IH]; intros Hn k g; simpl.
  - split.
    + intros [E | []]; injection E as <- <-; auto.
    + intros [[-> ->] | [_ []]]; auto.
  - inversion Hn as [|? ? Hk Hd]; subst.
    destruct (PyStr.eqb k' k0) eqn:E.
    + apply PyStrFacts.eqb_eq in E; subst k'; simpl.
      split.
      * intros [H | H]; [injection H as <- <-; auto|].
        right; split; [|auto].
        intros ->; apply Hk, in_map_iff; exists (k0, g); auto.
      * intros [[-> ->] | [Hne [H | H]]]; auto.
        injection H as -> _; congruence.
    + simpl; rewrite (IH Hd).
      assert (Ne : k' <> k0).
      { intros ->; rewrite PyStrFacts.eqb_refl in E; discriminate. }
      split.
      * intros [H | [H | [H1 H2]]]; auto.
        injection H as <- <-; auto.
      * intros [H | [H1 [H | H]]]; auto.
Qed.

Lemma last_named_snoc (k : str) (columns : list column) (c : column) :
  last_named k (columns ++ [c])
  = if PyStr.eqb (name c) k then Some c else last_named k columns.
Proof. unfold last_named; rewrite rev_app_distr; reflexivity. Qed.

(** X26: when several columns that are not identity columns have the
    same name, the name is kept once and its provider is the one the
    classifier gives for the last of them. *)
Theorem provider_of_last_column (columns : list column) (k : str)
        (g : Classifier.generator) :
  In (k, g) (providers_of columns)
  <-> exists col,
        last_named k columns = Some col
        /\ g = Classifier.map_column_to_mimesis (name col) (type col).
Proof.
  revert k g; induction columns as [|c columns IH] using rev_ind;
    intros k g.
  - simpl; split; [intros [] | intros (col & H & _); discriminate].
  - unfold providers_of; rewrite fold_left_app; simpl.
    fold (providers_of columns).
    rewrite dict_set_in
      by (rewrite providers_keys; apply first_occurrences_nodup).
    rewrite last_named_snoc, IH.
    destruct (PyStr.eqb (name c) k) eqn:E.
    + apply PyStrFacts.eqb_eq in E; subst k.
      split.
      * intros [[_ ->] | [Hne _]]; [eauto | congruence].
      * intros (col & H & ->); injection H as <-; auto.
    + assert (Ne : k <> name c).
      { intros ->; rewrite PyStrFacts.eqb_refl in E; discriminate. }
      split.
      * intros [[H _] | [_ H]]; [congruence | exact H].
      * intros H; right; auto.
Qed.

End MainMore.

(** ** The case of the table name, and CREATE DATABASE *)

Module NameMore.
Import Re Props Notions Extractor ReFacts DetectorMore.

Section Continuations.
Context {A : Type}.

Lemma star_greedy_ext (p : ascii -> bool) (k1 k2 : str -> option A) :
  (forall s, k1 s = k2 s) ->
  forall s, star_greedy p s k1 = star_greedy p s k2.
Proof.
  intros H; induction s as [|x s IH]; simpl; [apply H|].
  rewrite IH, H; reflexivity.
Qed.

Lemma star_lazy_ext (p : ascii -> bool) (k1 k2 : str -> option A) :
  (forall s, k1 s = k2 s) ->
  forall s, star_lazy p s k1 = star_lazy p s k2.
Proof.
  intros H; induction s as [|x s IH]; simpl; rewrite H; [reflexivity|].
  rewrite IH; reflexivity.
Qed.

(** The matcher reads its continuation through its results only. *)
Lemma m_ext (r : regex) :
  forall g s (k1 k2 : option str -> str -> option A),
    (forall g' s', k1 g' s' = k2 g' s') ->
    m r g s k1 = m r g s k2.
Proof.
  induction r as [|c|p|r1 IH1 r2 IH2|r1 IH1 r2 IH2|r1 IH1|p|p|p|r1 IH1];
    intros g s k1 k2 H; cbn [m].
  - apply H.
  - destruct s as [|x s]; [reflexivity|]; rewrite H; reflexivity.
  - destruct s as [|x s]; [reflexivity|]; rewrite H; reflexivity.
  - apply IH1; intros g' s'; apply IH2; exact H.
  - rewrite (IH1 g s k1 k2 H), (IH2 g s k1 k2 H); reflexivity.
  - rewrite (IH1 g s k1 k2 H), H; reflexivity.
  - apply star_greedy_ext; intros s'; apply H.
  - destruct s as [|x s]; [reflexivity|].
    rewrite (star_greedy_ext p (k1 g) (k2 g) (fun s' => H g s'));
      reflexivity.
  - apply star_lazy_ext; intros s'; apply H.
  - apply IH1; intros g' s'; apply H.
Qed.

Lemma m_lits_lower (w : str) :
  forall w' g s (k : option str -> str -> option A),
    PyStr.lower w = PyStr.lower w' ->
    m (lits w) g s k = m (lits w') g s k.
Proof.
  induction w as [|c w IH]; intros [|c' w'] g s k E;
    try discriminate; [reflexivity|].
  simpl in E; injection E as Ec Ew.
  change (m (lits (c :: w)) g s k)
    with (match s with
          | x :: s' => if chr_eq c x then m (lits w) g s' k else None
          | [] => None
          end).
  change (m (lits (c' :: w')) g s k)
    with (match s with
          | x :: s' => if chr_eq c' x then m (lits w') g s' k else None
          | [] => None
          end).
  destruct s as [|x s]; [reflexivity|].
  unfold chr_eq; rewrite Ec, (IH w' g s k Ew); reflexivity.
Qed.
End Continuations.

Lemma match_at_lower (t t' s : str) :
  PyStr.lower t = PyStr.lower t' ->
  match_at (table_pattern t) s = match_at (table_pattern t') s.
Proof.
  intros E; unfold match_at, table_pattern, table_head.
  cbn [seq m].
  apply m_ext; intros g1 s1.
  destruct s1 as [|x1 s1]; [reflexivity|].
  destruct (PyStr.isspace x1); [|reflexivity].
  apply star_greedy_ext; intros s2.
  apply m_ext; intros g3 s3.
  destruct s3 as [|x3 s3]; [reflexivity|].
  destruct (PyStr.isspace x3); [|reflexivity].
  apply star_greedy_ext; intros s4.
  assert (N : forall g0 s0 (k : option str -> str -> option match_obj),
             m (escape t) g0 s0 k = m (escape t') g0 s0 k).
  { intros g0 s0 k; apply m_lits_lower; exact E. }
  erewrite m_ext; [|intros g' s'; apply N].
  rewrite N; reflexivity.
Qed.

Lemma search_lower (t t' s : str) :
  PyStr.lower t = PyStr.lower t' ->
  search (table_pattern t) s = search (table_pattern t') s.
Proof.
  intros E; induction s as [|x s IH]; cbn [search];
    rewrite (match_at_lower t t' _ E); [reflexivity|].
  rewrite IH; reflexivity.
Qed.

Lemma scan_lower (d : Sqlglot.dialect) (t t' : str)
      (expressions : list Sqlglot.expression) :
  PyStr.lower t = PyStr.lower t' ->
  scan d t expressions = scan d t' expressions.
Proof.
  intros E; induction expressions as [|[k found defs|] es IH]; simpl;
    [reflexivity| |exact IH].
  rewrite E, IH; reflexivity.
Qed.

Lemma structured_pass_lower parse (sql_content t t' : str)
      (ds : list Sqlglot.dialect) :
  PyStr.lower t = PyStr.lower t' ->
  structured_pass parse sql_content t ds
  = structured_pass parse sql_content t' ds.
Proof.
  intros E; induction ds as [|d ds IH]; simpl; [reflexivity|].
  destruct (parse sql_content d) as [es|]; [|exact IH].
  rewrite (scan_lower d t t' es E), IH; reflexivity.
Qed.



Lemma same_letters_not_space (c x : ascii) :
  inert c = false -> chr_eq c x = true -> PyStr.isspace x = false.
Proof.
  intros Ic E.
  pose proof (inert_chr_eq c x E) as I; rewrite Ic in I.
  unfold inert in I; apply orb_false_iff in I; tauto.
Qed.

Lemma spaces_then_name (g : option str) (w id rest : str) :
  w <> [] -> forallb PyStr.isspace w = true ->
  id <> [] -> forallb ident_char id = true ->
  stops ident_char rest = true ->
  m (Plus PyStr.isspace) g (w ++ id ++ rest)
    (fun g' s' =>
       m (seq [Grp (Plus ident_char)]) g' s' (fun g'' _ => Some g''))
  = Some (Some id).
Proof.
  intros Nw Fw Ni Fi S.
  destruct w as [|x w]; [congruence|].
  simpl in Fw; apply andb_true_iff in Fw; destruct Fw as [Fx Fw].
  destruct id as [|y id]; [congruence|].
  simpl in Fi; apply andb_true_iff in Fi; destruct Fi as [Fy Fi].
  cbn [m app]; rewrite Fx.
  apply star_greedy_run; [exact Fw | |].
  - simpl; rewrite (ident_not_space y Fy); reflexivity.
  - rewrite ident_group_match; simpl; rewrite Fy.
    rewrite (take_while_run ident_char id rest Fi S); reflexivity.
Qed.

Lemma create_statement_match (kw1 w1 kw2 w2 id rest : str) :
  same_letters (L "CREATE") kw1 ->
  w1 <> [] -> forallb PyStr.isspace w1 = true ->
  same_letters (L "DATABASE") kw2 ->
  w2 <> [] -> forallb PyStr.isspace w2 = true ->
  id <> [] -> forallb ident_char id = true ->
  stops ident_char rest = true ->
  match_at create_pattern (kw1 ++ w1 ++ kw2 ++ w2 ++ id ++ rest)
  = Some (Some id).
Proof.
  intros K1 N1 F1 K2 N2 F2 Ni Fi S.
  change (match_at create_pattern (kw1 ++ w1 ++ kw2 ++ w2 ++ id ++ rest))
    with (m (lits (L "CREATE")) None
            (kw1 ++ w1 ++ kw2 ++ w2 ++ id ++ rest)
            (fun g s =>
               m (Plus PyStr.isspace) g s
                 (fun g1 s1 =>
                    m (lits (L "DATABASE")) g1 s1
                      (fun g2 s2 =>
                         m (Plus PyStr.isspace) g2 s2
                           (fun g' s' =>
                              m (seq [Grp (Plus ident_char)]) g' s'
                                (fun g'' _ => Some g'')))))).
  rewrite (m_lits_same _ _ _ _ _ K1).
  destruct w1 as [|x w1]; [congruence|].
  simpl in F1; apply andb_true_iff in F1; destruct F1 as [Fx F1].
  cbn [m app]; rewrite Fx.
  apply star_greedy_run; [exact F1 | |].
  - inversion K2 as [|c k ? kw2' Ek ?]; subst; simpl.
    rewrite (same_letters_not_space "D" k eq_refl Ek); reflexivity.
  - rewrite (m_lits_same _ _ _ _ _ K2).
    apply spaces_then_name; assumption.
Qed.

Lemma create_search_skips (pre s : str) :
  without_letter "C" pre = true ->
  search create_pattern (pre ++ s) = search create_pattern s.
Proof.
  induction pre as [|x pre IH]; intros F; [reflexivity|].
  simpl in F; apply andb_true_iff in F; destruct F as [Fx F].
  apply negb_true_iff in Fx.
  change ((x :: pre) ++ s) with (x :: (pre ++ s)).
  cbn [search].
  replace (match_at create_pattern (x :: pre ++ s))
    with (@None match_obj).
  - apply IH; exact F.
  - symmetry.
    apply (m_lits_other "C" x (L "REATE") (pre ++ s) None _ Fx).
Qed.

(** X28: when the script has no match of the USE pattern, a CREATE
    DATABASE statement gives the name: in any case of its letters,
    with any white space after the two words, after a text that has no
    letter C, the name is the run of identifier and quote characters
    that follows, without the quote and bracket characters around
    it. *)
Theorem create_database_found
        (pre kw1 w1 kw2 w2 id rest engine : str) :
  search use_pattern (pre ++ kw1 ++ w1 ++ kw2 ++ w2 ++ id ++ rest) = None ->
  without_letter "C" pre = true ->
  same_letters (L "CREATE") kw1 ->
  w1 <> [] -> forallb PyStr.isspace w1 = true ->
  same_letters (L "DATABASE") kw2 ->
  w2 <> [] -> forallb PyStr.isspace w2 = true ->
  id <> [] -> forallb ident_char id = true ->
  stops ident_char rest = true ->
  extract_database_name (pre ++ kw1 ++ w1 ++ kw2 ++ w2 ++ id ++ rest) engine
  = Some (PyStr.strip_chars quote_chars id).
Proof.
  intros U Fp K1 N1 F1 K2 N2 F2 Ni Fi S; unfold extract_database_name.
  rewrite U, (create_search_skips _ _ Fp).
  rewrite (search_at_start _ _ _
             (create_statement_match kw1 w1 kw2 w2 id rest
                K1 N1 F1 K2 N2 F2 Ni Fi S)).
  reflexivity.
Qed.

Lemma create_database_found_witness :
  search use_pattern
         (L "-- " ++ L "create" ++ L " " ++ L "Database" ++ L "  "
          ++ L "`shop`" ++ L ";") = None
  /\ without_letter "C" (L "-- ") = true
  /\ same_letters (L "CREATE") (L "create")
  /\ L " " <> []
  /\ forallb PyStr.isspace (L " ") = true
  /\ same_letters (L "DATABASE") (L "Database")
  /\ L "  " <> []
  /\ forallb PyStr.isspace (L "  ") = true
  /\ L "`shop`" <> []
  /\ forallb ident_char (L "`shop`") = true
  /\ stops ident_char (L ";") = true
  /\ extract_database_name
       (L "-- " ++ L "create" ++ L " " ++ L "Database" ++ L "  "
        ++ L "`shop`" ++ L ";") (L "mysql")
     = Some (PyStr.strip_chars quote_chars (L "`shop`")).
Proof.
  assert (K1 : same_letters (L "CREATE") (L "create"))
    by (repeat constructor).
  assert (K2 : same_letters (L "DATABASE") (L "Database"))
    by (repeat constructor).
  repeat (split; [first [reflexivity | discriminate | assumption]|]).
  apply create_database_found;
    first [reflexivity | discriminate | assumption].
Defined.

End NameMore.

(** ** [main] on a small run *)

Module Runs2.
Import Schema Main Notions.

Example demo_inserts :
  match demo_main (demo_arguments "oracle" None) with
  | Finished _ output_file writes =>
      output_file = L "t_dump.sql"
      /\ filter is_insert writes
         = [ L "INSERT INTO t (qty, note) VALUES (0, 1);" ++ [nl];
             L "INSERT INTO t (qty, note) VALUES (2, 3);" ++ [nl] ]
      /\ last writes [] = L "COMMIT;" ++ [nl]
  | SysExit _ _ => False
  end.
Proof. vm_compute; repeat split. Qed.

Example demo_missing_table :
  Main.main (fun _ _ => None) (fun _ => Some demo_script) nat
            (fun _ r => (Formatter.VInt (Z.of_nat r), S r)) 0
            (mk_arguments (L "schema.sql") (L "mysql") (L "orders") 5
                          None None)
  = SysExit [L "Error: Could not find table 'orders' in the script."] 1.
Proof. vm_compute; reflexivity. Qed.

Example demo_duplicate_name :
  providers_of
    [ mk_column (L "qty") (L "TEXT") false;
      mk_column (L "note") (L "TEXT") false;
      mk_column (L "qty") (L "INT") false ]
  = [ (L "qty", Classifier.integer_number 1 100000);
      (L "note", Classifier.text_word) ].
Proof. reflexivity. Qed.

Example empty_name_from_quotes :
  Extractor.column_of_clause (L "[] INT")
  = Some (mk_column [] (L "INT") false).
Proof. reflexivity. Qed.

End Runs2.
